(** * Crime_Analysis_Model: the data pipeline of [app.py] and [google-heatmaps.py]

    Both scripts run the same pipeline on an uploaded CSV: column names are
    normalised, sparse location columns are forward-filled, the crime-type
    columns are coerced to numbers, the rows of one (year, state) are kept,
    the crime-type columns are summed per district, a total and a min-max
    crime index are derived, and the districts are ranked.

    The pandas [DataFrame] is embedded column-wise, as pandas stores it: an
    ordered list of named [Series].  Exceptions and [st.stop()] are results
    of an error monad.  The widgets and the plots are not modelled: the two
    selections and [top_n] are inputs of the pipeline.

    Two idealisations.  Numbers are exact rationals, so binary64 rounding
    and infinities are outside this model, and equality of numbers is
    [Qeq].  A column is looked up by the first column of that name; pandas
    behaves differently on frames where two columns share a name, and such
    frames are outside this model too. *)

From Stdlib Require Import List String Ascii Bool Arith Lia ZArith QArith.
From Stdlib Require Import Qminmax Permutation Sorted SetoidList Morphisms.
Import ListNotations.

Close Scope Q_scope.
Open Scope string_scope.
Open Scope list_scope.
Open Scope nat_scope.

(** ** Cells, series and frames *)

(** A cell as [pd.read_csv] leaves it: a missing value, a number, or text. *)
Inductive cell : Type :=
| NaN
| Num (q : Q)
| Str (s : string).

Definition Series : Type := list cell.

(** Columns in their order; [df.columns] is the list of their names. *)
Definition DataFrame : Type := list (string * Series).

Definition columns (df : DataFrame) : list string := map fst df.

(** [len(df)]: every column of a frame has this many cells. *)
Definition nrows (df : DataFrame) : nat :=
  match df with
  | [] => 0
  | (_, s) :: _ => length s
  end.

Definition well_formed (df : DataFrame) : Prop :=
  Forall (fun cs => length (snd cs) = nrows df) df.

Definition isna (c : cell) : bool :=
  match c with NaN => true | _ => false end.

(** ** Exceptions *)

Inductive exn : Type :=
| KeyError (column : string)
    (* df["column"] when the frame has no such column *)
| ValueError (message : string)
    (* raised inside MinMaxScaler by sklearn's input validation *)
| StopException (message : string).
    (* st.error(message) followed by st.stop() *)

(** The text of [st.error] in google-heatmaps.py, and of the error sklearn
    raises on an array without rows. *)
Definition missing_geo_message : string :=
  "❌ CSV must contain 'lat' and 'lon' columns for Google Maps heatmap.".

Definition no_samples_message : string :=
  "Found array with 0 sample(s) (shape=(0, 1)) while a minimum of 1 is required by MinMaxScaler.".

Inductive result (A : Type) : Type :=
| Ok (a : A)
| Raise (e : exn).

Arguments Ok {A} a.
Arguments Raise {A} e.

Definition bind {A B : Type} (r : result A) (k : A -> result B) : result B :=
  match r with
  | Ok a => k a
  | Raise e => Raise e
  end.

Notation "x <- e ;; k" := (bind e (fun x => k))
  (at level 61, e at next level, right associativity).

Fixpoint mapM {A B : Type} (f : A -> result B) (l : list A) : result (list B) :=
  match l with
  | [] => Ok []
  | a :: t => b <- f a ;; bs <- mapM f t ;; Ok (b :: bs)
  end.

(** ** Column access *)

(** [df[c]] *)
Fixpoint getitem (c : string) (df : DataFrame) : result Series :=
  match df with
  | [] => Raise (KeyError c)
  | (name, s) :: rest => if String.eqb name c then Ok s else getitem c rest
  end.

(** [df[c] = s]: an existing column is replaced in place, a new one is
    appended. *)
Fixpoint setitem (c : string) (s : Series) (df : DataFrame) : DataFrame :=
  match df with
  | [] => [(c, s)]
  | (name, old) :: rest =>
      if String.eqb name c then (name, s) :: rest
      else (name, old) :: setitem c s rest
  end.

Definition has_column (c : string) (df : DataFrame) : bool :=
  existsb (String.eqb c) (columns df).

(** ** Schema normaliser: [df.columns.str.strip().str.lower()]

    Byte-level: ASCII white space is stripped and ASCII letters are
    lower-cased. *)

Definition is_space (a : ascii) : bool :=
  let n := nat_of_ascii a in
  ((9 <=? n) && (n <=? 13)) || ((28 <=? n) && (n <=? 32)).

Definition lower_ascii (a : ascii) : ascii :=
  let n := nat_of_ascii a in
  if (65 <=? n) && (n <=? 90) then ascii_of_nat (n + 32) else a.

Fixpoint lstrip (s : string) : string :=
  match s with
  | EmptyString => EmptyString
  | String a t => if is_space a then lstrip t else s
  end.

Fixpoint rstrip (s : string) : string :=
  match s with
  | EmptyString => EmptyString
  | String a t =>
      match rstrip t with
      | EmptyString => if is_space a then EmptyString else String a EmptyString
      | t' => String a t'
      end
  end.

Definition strip (s : string) : string := rstrip (lstrip s).

Fixpoint lower (s : string) : string :=
  match s with
  | EmptyString => EmptyString
  | String a t => String (lower_ascii a) (lower t)
  end.

Definition normalize_columns (df : DataFrame) : DataFrame :=
  map (fun cs => (lower (strip (fst cs)), snd cs)) df.

(** ** Hierarchical fill: [Series.ffill()] *)

Fixpoint ffill_from (last : cell) (s : Series) : Series :=
  match s with
  | [] => []
  | NaN :: t => last :: ffill_from last t
  | c :: t => c :: ffill_from c t
  end.

Definition ffill (s : Series) : Series := ffill_from NaN s.

(** [df[c] = df[c].ffill()] *)
Definition fill_column (c : string) (df : DataFrame) : result DataFrame :=
  s <- getitem c df ;; Ok (setitem c (ffill s) df).

(** The two scripts: [app.py] is the table view, [google-heatmaps.py] the
    map view. *)
Inductive Mode : Type := TableView | MapView.

(** app.py lines 33-35, google-heatmaps.py lines 38-39. *)
Definition hierarchical_fill (m : Mode) (df : DataFrame) : result DataFrame :=
  match m with
  | TableView =>
      df <- fill_column "state_name" df ;;
      df <- fill_column "district_name" df ;;
      fill_column "registration_circles" df
  | MapView =>
      df <- fill_column "state_name" df ;;
      fill_column "district_name" df
  end.

Definition fill_columns (m : Mode) : list string :=
  match m with
  | TableView => ["state_name"; "district_name"; "registration_circles"]
  | MapView => ["state_name"; "district_name"]
  end.

(** ** Numeric coercion *)

Definition mem (c : string) (l : list string) : bool :=
  existsb (String.eqb c) l.

Definition exclude_cols (m : Mode) : list string :=
  match m with
  | TableView =>
      ["year"; "state_name"; "district_name"; "registration_circles"]
  | MapView =>
      ["year"; "state_name"; "district_name"; "registration_circles";
       "lat"; "lon"]
  end.

(** [[c for c in df.columns if c not in exclude_cols]] *)
Definition crime_cols (m : Mode) (df : DataFrame) : list string :=
  filter (fun c => negb (mem c (exclude_cols m))) (columns df).

(** [pd.to_numeric(..., errors="coerce")] on one cell.  [parse] is the
    number parser of pandas for text cells: [None] when the text is not a
    number. *)
Definition to_numeric (parse : string -> option Q) (c : cell) : cell :=
  match c with
  | NaN => NaN
  | Num q => Num q
  | Str s => match parse s with Some q => Num q | None => NaN end
  end.

(** [.fillna(0)] on one cell. *)
Definition fillna_zero (c : cell) : cell :=
  match c with NaN => Num 0%Q | _ => c end.

Definition coerce_series (parse : string -> option Q) (s : Series) : Series :=
  map (fun c => fillna_zero (to_numeric parse c)) s.

(** [df[crime_cols] = df[crime_cols].apply(pd.to_numeric,
    errors="coerce").fillna(0)]: app.py lines 41-43, google-heatmaps.py
    lines 51-53. *)
Definition numeric_coercion (parse : string -> option Q)
    (cols : list string) (df : DataFrame) : DataFrame :=
  map (fun cs =>
         if mem (fst cs) cols then (fst cs, coerce_series parse (snd cs))
         else cs) df.

(** The integer literals among the texts pandas parses, for the examples. *)
Definition digit_value (a : ascii) : option Z :=
  let n := nat_of_ascii a in
  if (48 <=? n) && (n <=? 57) then Some (Z.of_nat (n - 48)) else None.

Fixpoint parse_digits (acc : Z) (s : string) : option Z :=
  match s with
  | EmptyString => Some acc
  | String a t =>
      match digit_value a with
      | Some d => parse_digits (10 * acc + d)%Z t
      | None => None
      end
  end.

Definition parse_integer_literal (s : string) : option Q :=
  match s with
  | EmptyString => None
  | String "-" (String a t) =>
      option_map (fun z => inject_Z (- z)) (parse_digits 0 (String a t))
  | _ => option_map inject_Z (parse_digits 0 s)
  end.

(** ** Filter stage *)

(** Python's [==] on cells: a missing value equals nothing, itself
    included. *)
Definition cell_eqb (a b : cell) : bool :=
  match a, b with
  | Num x, Num y => Qeq_bool x y
  | Str s, Str t => String.eqb s t
  | _, _ => false
  end.

(** What a select box returns: one of its options, or [None] when it has
    no option to offer. *)
Definition selection : Type := option cell.

Definition eq_selected (sel : selection) (c : cell) : bool :=
  match sel with
  | None => false
  | Some v => cell_eqb c v
  end.

Fixpoint mask_and (a b : list bool) : list bool :=
  match a, b with
  | x :: a', y :: b' => (x && y) :: mask_and a' b'
  | _, _ => []
  end.

Fixpoint mask_select {A : Type} (mask : list bool) (s : list A) : list A :=
  match mask, s with
  | b :: mask', x :: s' =>
      if b then x :: mask_select mask' s' else mask_select mask' s'
  | _, _ => []
  end.

(** [df[mask]] *)
Definition filter_rows (mask : list bool) (df : DataFrame) : DataFrame :=
  map (fun cs => (fst cs, mask_select mask (snd cs))) df.

(** [df[(df["year"] == selected_year) & (df["state_name"] ==
    selected_state)]]: app.py lines 63-66, google-heatmaps.py lines 65-68. *)
Definition filter_stage (df : DataFrame)
    (selected_year selected_state : selection) : result DataFrame :=
  ys <- getitem "year" df ;;
  ss <- getitem "state_name" df ;;
  Ok (filter_rows (mask_and (map (eq_selected selected_year) ys)
                            (map (eq_selected selected_state) ss)) df).

(** ** Aggregator: [groupby(by, as_index=False)[cols].sum()]

    [groupby] runs with its defaults [sort=True] and [dropna=True]: a row
    with a missing value in a key column belongs to no group, and the groups
    come out in key order. *)

Definition key : Type := list cell.

Definition row_key (ks : list Series) (i : nat) : key :=
  map (fun s => nth i s NaN) ks.

Definition key_valid (k : key) : bool :=
  forallb (fun c => negb (isna c)) k.

(** The same value, where two missing values count as the same. *)
Definition cell_same (a b : cell) : bool :=
  match a, b with
  | NaN, NaN => true
  | Num x, Num y => Qeq_bool x y
  | Str s, Str t => String.eqb s t
  | _, _ => false
  end.

Fixpoint key_eqb (a b : key) : bool :=
  match a, b with
  | [], [] => true
  | x :: a', y :: b' => cell_same x y && key_eqb a' b'
  | _, _ => false
  end.

Definition key_eq (a b : key) : Prop := key_eqb a b = true.

(** The order of the groups.  A key column read from a CSV holds numbers
    only or text only; across the two, numbers come first. *)
Definition cell_leb (a b : cell) : bool :=
  match a, b with
  | Num x, Num y => Qle_bool x y
  | Str s, Str t => String.leb s t
  | Num _, Str _ => true
  | Str _, Num _ => false
  | _, NaN => true
  | NaN, _ => false
  end.

Fixpoint key_leb (a b : key) : bool :=
  match a, b with
  | [], _ => true
  | _ :: _, [] => false
  | x :: a', y :: b' => if cell_same x y then key_leb a' b' else cell_leb x y
  end.

Fixpoint insert_key (k : key) (l : list key) : list key :=
  match l with
  | [] => [k]
  | k' :: t => if key_leb k k' then k :: l else k' :: insert_key k t
  end.

Definition sort_keys (l : list key) : list key :=
  fold_right insert_key [] l.

Fixpoint unique (l : list key) : list key :=
  match l with
  | [] => []
  | k :: t => k :: filter (fun k' => negb (key_eqb k k')) (unique t)
  end.

Definition group_keys (ks : list Series) (n : nat) : list key :=
  sort_keys (unique (filter key_valid (map (row_key ks) (seq 0 n)))).

Definition Qsum (l : list Q) : Q := fold_right Qplus 0%Q l.

(** The number a cell contributes to a sum ([skipna=True]: a missing value
    contributes nothing).  Crime-type columns hold numbers only once they
    are coerced. *)
Definition cell_num (c : cell) : Q :=
  match c with Num q => q | _ => 0%Q end.

(** The rows of a group: the indices whose key is [k]. *)
Definition group_rows (ks : list Series) (n : nat) (k : key) : list nat :=
  filter (fun i => key_eqb (row_key ks i) k) (seq 0 n).

Definition group_sum (ks : list Series) (n : nat) (k : key) (s : Series) : Q :=
  Qsum (map (fun i => cell_num (nth i s NaN)) (group_rows ks n k)).

(** app.py lines 69-72 with [by_ = ["district_name"]], google-heatmaps.py
    lines 71-74 with [by_ = ["district_name"; "lat"; "lon"]].  The result
    has the key columns first, then the summed columns. *)
Definition groupby_sum (by_ cols : list string) (df : DataFrame)
    : result DataFrame :=
  ks <- mapM (fun c => getitem c df) by_ ;;
  vs <- mapM (fun c => getitem c df) cols ;;
  let n := nrows df in
  let keys := group_keys ks n in
  Ok (combine by_
        (map (fun j => map (fun k => nth j k NaN) keys) (seq 0 (length by_)))
      ++ combine cols
        (map (fun s => map (fun k => Num (group_sum ks n k s)) keys) vs)).

Definition group_cols (m : Mode) : list string :=
  match m with
  | TableView => ["district_name"]
  | MapView => ["district_name"; "lat"; "lon"]
  end.

(** ** Crime index *)

(** [district_df[cols].sum(axis=1)]: one sum per row, across the columns. *)
Definition row_totals (vs : list Series) (n : nat) : list Q :=
  map (fun i => Qsum (map (fun s => cell_num (nth i s NaN)) vs)) (seq 0 n).

Definition sum_axis1 (vs : list Series) (n : nat) : Series :=
  map Num (row_totals vs n).

(** sklearn's [_handle_zeros_in_scale]: a zero range is replaced by 1, so
    that a constant feature is not divided by zero.  (Recent versions also
    treat a range below ten machine epsilons as zero, to absorb rounding
    noise; in exact arithmetic the test is against zero.) *)
Definition handle_zeros_in_scale (r : Q) : Q :=
  if Qeq_bool r 0 then 1%Q else r.

Definition data_min (x : Q) (t : list Q) : Q := fold_left Qmin t x.
Definition data_max (x : Q) (t : list Q) : Q := fold_left Qmax t x.

(** [MinMaxScaler().fit_transform(X)] on one feature, with the default
    [feature_range=(0, 1)].  sklearn validates its input first and refuses
    an array without samples. *)
Definition MinMaxScaler_fit_transform (X : list Q) : result (list Q) :=
  match X with
  | [] =>
      Raise (ValueError no_samples_message)
  | x :: t =>
      let data_range := (data_max x t - data_min x t)%Q in
      let scale_ := ((1 - 0) / handle_zeros_in_scale data_range)%Q in
      let min_ := (0 - data_min x t * scale_)%Q in
      Ok (map (fun v => (v * scale_ + min_)%Q) X)
  end.

(** app.py lines 75-80, google-heatmaps.py lines 77-82. *)
Definition crime_index_stage (cols : list string) (district_df : DataFrame)
    : result DataFrame :=
  vs <- mapM (fun c => getitem c district_df) cols ;;
  let district_df :=
    setitem "total_crime" (sum_axis1 vs (nrows district_df)) district_df in
  total <- getitem "total_crime" district_df ;;
  index <- MinMaxScaler_fit_transform (map cell_num total) ;;
  Ok (setitem "crime_index" (map Num index) district_df).

(** ** Ranker: [sort_values("crime_index", ascending=False).head(top_n)] *)

(** [df.take(indexer)]: the rows at the positions of [indexer], in that
    order. *)
Definition take (indexer : list nat) (df : DataFrame) : DataFrame :=
  map (fun cs => (fst cs, map (fun i => nth i (snd cs) NaN) indexer)) df.

(** [df.head(n)] *)
Definition head (n : nat) (df : DataFrame) : DataFrame :=
  map (fun cs => (fst cs, firstn n (snd cs))) df.

Definition descending (l : list Q) : Prop :=
  StronglySorted (fun a b => (b <= a)%Q) l.

(** [sort_values] is called with its default [kind="quicksort"], which
    pandas documents as not stable: the indexer it computes is some
    arrangement of the row positions that puts the values in descending
    order, and nothing more is fixed. *)
Definition argsort_descending (v : list Q) (indexer : list nat) : Prop :=
  Permutation (seq 0 (length v)) indexer /\
  descending (map (fun i => nth i v 0%Q) indexer).

Definition sort_values_descending (by_ : string) (df sorted : DataFrame)
    : Prop :=
  exists s indexer,
    getitem by_ df = Ok s /\
    argsort_descending (map cell_num s) indexer /\
    sorted = take indexer df.

(** app.py lines 124-127, google-heatmaps.py lines 179-182. *)
Definition top_districts (district_df : DataFrame) (top_n : nat)
    (out : DataFrame) : Prop :=
  exists sorted,
    sort_values_descending "crime_index" district_df sorted /\
    out = head top_n sorted.

(** One arrangement [sort_values] may compute: the stable one, where rows
    with equal values keep their original order. *)
Fixpoint insert_descending (v : list Q) (i : nat) (l : list nat) : list nat :=
  match l with
  | [] => [i]
  | j :: t =>
      if Qle_bool (nth j v 0%Q) (nth i v 0%Q) then i :: l
      else j :: insert_descending v i t
  end.

Definition stable_argsort_descending (v : list Q) : list nat :=
  fold_right (insert_descending v) [] (seq 0 (length v)).

Definition top_districts_stable (district_df : DataFrame) (top_n : nat)
    : result DataFrame :=
  s <- getitem "crime_index" district_df ;;
  Ok (head top_n
        (take (stable_argsort_descending (map cell_num s)) district_df)).

(** ** The pipeline *)

Definition required_columns : list string := ["lat"; "lon"].

(** google-heatmaps.py lines 42-45; app.py has no such check. *)
Definition check_required_columns (m : Mode) (df : DataFrame) : result unit :=
  match m with
  | TableView => Ok tt
  | MapView =>
      if forallb (fun c => has_column c df) required_columns then Ok tt
      else Raise (StopException missing_geo_message)
  end.

Arguments check_required_columns : simpl never.

(** Everything before the crime columns are identified: app.py lines
    31-35, google-heatmaps.py lines 35-45. *)
Definition preprocess (m : Mode) (raw : DataFrame) : result DataFrame :=
  let df := normalize_columns raw in
  df <- hierarchical_fill m df ;;
  _ <- check_required_columns m df ;;
  Ok df.

(** From the uploaded table and the two selections to [district_df] with
    its [total_crime] and [crime_index] columns. *)
Definition district_pipeline (parse : string -> option Q) (m : Mode)
    (raw : DataFrame) (selected_year selected_state : selection)
    : result DataFrame :=
  df <- preprocess m raw ;;
  let cols := crime_cols m df in
  let df := numeric_coercion parse cols df in
  filtered_df <- filter_stage df selected_year selected_state ;;
  district_df <- groupby_sum (group_cols m) cols filtered_df ;;
  crime_index_stage cols district_df.

(** ** Vocabulary of the properties *)






(** The nearest non-missing cell before position [i], if there is one. *)
Definition nearest_preceding (s : Series) (i : nat) (v : cell) : Prop :=
  exists j, j < i /\ nth j s NaN = v /\ v <> NaN /\
            forall k, j < k < i -> nth k s NaN = NaN.





(** Example frames. *)



(** year,state_name,district_name,registration_circles,theft with one
    data row whose state is left empty. *)
Definition upload_missing_state : DataFrame :=
  [ ("Year", [Num 2020]);
    ("State_Name", [NaN]);
    ("District_Name", [Str "X"]);
    ("Registration_Circles", [Str "c"]);
    ("Theft", [Num 5]) ].

Definition upload_map_without_lon : DataFrame :=
  [ ("year", [Num 2020]);
    ("state_name", [Str "A"]);
    ("district_name", [Str "X"]);
    ("lat", [Num 12]);
    ("theft", [Num 5]) ].

Definition upload_without_circles : DataFrame :=
  [ ("year", [Num 2020; Num 2020]);
    ("state_name", [Str "A"; NaN]);
    ("district_name", [Str "X"; NaN]);
    ("theft", [Num 5; Num 3]) ].




Definition upload_text_counts : DataFrame :=
  [ ("year", [Num 2020; Num 2020; Num 2020]);
    ("state_name", [Str "A"; Str "A"; Str "A"]);
    ("district_name", [Str "X"; Str "Y"; Str "Z"]);
    ("registration_circles", [Str "c"; Str "c"; Str "c"]);
    ("theft", [Str "12"; Str "n/a"; NaN]) ].

Definition sparse_labels : DataFrame :=
  [ ("state_name", [Str "A"; NaN; NaN]);
    ("district_name", [NaN; Str "X"; NaN]);
    ("registration_circles", [Str "c"; NaN; Str "d"]) ].


(** ** The sidebar: the values the two select boxes offer

    [sorted(...)] around these values arranges them, when it can compare
    them; the options of a select box are these values. *)





(** ** The views built on the aggregate *)

(** A frame whose index is a column of values: the result of
    [set_index]. *)
Record IndexedFrame : Type := {
  index : Series;
  data : DataFrame
}.

(** [df.set_index(c)]: the column becomes the index and leaves the
    columns. *)
Definition set_index (c : string) (df : DataFrame) : result IndexedFrame :=
  s <- getitem c df ;;
  Ok {| index := s;
        data := filter (fun cs => negb (String.eqb (fst cs) c)) df |}.

(** [df[cols]] with a list of names. *)
Definition select_columns (cols : list string) (df : DataFrame)
    : result DataFrame :=
  ss <- mapM (fun c => getitem c df) cols ;;
  Ok (combine cols ss).

(** [.empty]: no row or no column. *)
Definition empty (f : IndexedFrame) : bool :=
  (length (index f) =? 0) || (length (data f) =? 0).



(** The dtype of a column of the aggregate is numeric when it holds no
    text: [select_dtypes(include=np.number)] keeps those columns. *)
Definition numeric_dtype (s : Series) : bool :=
  forallb (fun c => match c with Str _ => false | _ => true end) s.

(** app.py lines 91-92. *)
Definition crime_only_cols (district_df : DataFrame) : list string :=
  filter (fun c => negb (String.eqb c "crime_index"))
    (map fst (filter (fun cs => numeric_dtype (snd cs)) district_df)).

(** app.py line 94. *)
Definition heatmap_data_table (district_df : DataFrame)
    : result IndexedFrame :=
  ix <- set_index "district_name" district_df ;;
  d <- select_columns (crime_only_cols district_df) (data ix) ;;
  Ok {| index := index ix; data := d |}.


(** [top_districts[["district_name", "total_crime", "crime_index"]]]:
    app.py lines 129-133, google-heatmaps.py lines 184-188. *)
Definition ranked_table (top : DataFrame) : result DataFrame :=
  select_columns ["district_name"; "total_crime"; "crime_index"] top.

(** A row of a frame: its cells, column by column. *)
Definition row (df : DataFrame) (i : nat) : list cell :=
  row_key (map snd df) i.

(** How many cells of a series satisfy a test. *)
Definition count_cells (f : cell -> bool) (s : Series) : nat :=
  length (filter f s).

Definition upload_two_states : DataFrame :=
  [ ("year", [Num 2020; Num 2020; Num 2021]);
    ("state_name", [Str "A"; Str "B"; Str "A"]);
    ("district_name", [Str "X"; Str "Y"; Str "X"]);
    ("registration_circles", [Str "c"; Str "c"; Str "c"]);
    ("lat", [Num 10; Num 20; Num 10]);
    ("lon", [Num 70; Num 80; Num 70]);
    ("theft", [Num 5; Num 3; Num 7]) ].

Definition numeric_districts : DataFrame :=
  [ ("district_name", [Num 101; Num 102]);
    ("theft", [Num 4; Num 10]);
    ("total_crime", [Num 4; Num 10]);
    ("crime_index", [Num 0; Num 1]) ].

(** * Properties *)

(** ** Column access *)

Lemma getitem_setitem_same (c : string) (s : Series) (df : DataFrame) :
  getitem c (setitem c s df) = Ok s.
Proof.
  induction df as [|[name old] rest IH]; simpl.
  - now rewrite String.eqb_refl.
  - destruct (String.eqb name c) eqn:E; simpl; rewrite E; auto.
Qed.

Lemma getitem_setitem_other (c c' : string) (s : Series) (df : DataFrame) :
  c <> c' -> getitem c (setitem c' s df) = getitem c df.
Proof.
  intros Hne. induction df as [|[name old] rest IH]; simpl.
  - destruct (String.eqb c' c) eqn:E; auto.
    apply String.eqb_eq in E. congruence.
  - destruct (String.eqb name c') eqn:E; simpl.
    + apply String.eqb_eq in E. subst name.
      destruct (String.eqb c' c) eqn:E'; auto.
      apply String.eqb_eq in E'. congruence.
    + now rewrite IH.
Qed.

Lemma has_column_getitem (c : string) (df : DataFrame) :
  has_column c df = true <-> exists s, getitem c df = Ok s.
Proof.
  unfold has_column, columns.
  induction df as [|[name s] rest IH]; simpl.
  - split; [discriminate | intros [s H]; discriminate].
  - rewrite String.eqb_sym. destruct (String.eqb name c); simpl.
    + split; eauto.
    + exact IH.
Qed.

Lemma has_column_false_getitem (c : string) (df : DataFrame) :
  has_column c df = false -> getitem c df = Raise (KeyError c).
Proof.
  unfold has_column, columns.
  induction df as [|[name s] rest IH]; simpl; auto.
  rewrite String.eqb_sym. destruct (String.eqb name c); simpl; auto.
  discriminate.
Qed.

Lemma columns_setitem_present (c : string) (s : Series) (df : DataFrame) :
  has_column c df = true -> columns (setitem c s df) = columns df.
Proof.
  unfold has_column, columns.
  induction df as [|[name old] rest IH]; simpl; [discriminate|].
  rewrite String.eqb_sym. destruct (String.eqb name c); simpl; auto.
  intros H. now rewrite IH.
Qed.

Lemma nrows_setitem (c : string) (s : Series) (df : DataFrame) :
  length s = nrows df -> nrows (setitem c s df) = nrows df.
Proof.
  destruct df as [|[name old] rest]; simpl; auto.
  destruct (String.eqb name c); simpl; auto.
Qed.

Lemma mapM_getitem_present (cols : list string) (df : DataFrame) :
  (forall c, In c cols -> has_column c df = true) ->
  exists vs, mapM (fun c => getitem c df) cols = Ok vs.
Proof.
  induction cols as [|c cols IH]; intros H; simpl.
  - eauto.
  - destruct (proj1 (has_column_getitem c df)) as [s Hs].
    { apply H. now left. }
    destruct IH as [vs Hvs]. { intros c' Hc'. apply H. now right. }
    rewrite Hs, Hvs. simpl. eauto.
Qed.

Lemma mapM_ext_in {A B : Type} (f g : A -> result B) (l : list A) :
  (forall a, In a l -> f a = g a) -> mapM f l = mapM g l.
Proof.
  induction l as [|a l IH]; intros H; simpl; auto.
  rewrite (H a) by now left. rewrite IH; auto.
  intros b Hb. apply H. now right.
Qed.

Lemma mapM_length {A B : Type} (f : A -> result B) (l : list A) (bs : list B) :
  mapM f l = Ok bs -> length bs = length l.
Proof.
  revert bs. induction l as [|a l IH]; intros bs H; simpl in H.
  - injection H as <-. reflexivity.
  - destruct (f a) as [b|]; simpl in H; [|discriminate].
    destruct (mapM f l) as [bs'|]; simpl in H; [|discriminate].
    injection H as <-. simpl. now rewrite (IH bs').
Qed.

(** ** Hierarchical fill *)

Lemma ffill_from_length (s : Series) (last : cell) :
  length (ffill_from last s) = length s.
Proof.
  revert last. induction s as [|c t IH]; intros last; simpl; auto.
  destruct c; simpl; now rewrite IH.
Qed.

Lemma ffill_from_present (s : Series) (last : cell) (i : nat) :
  nth i s NaN <> NaN -> nth i (ffill_from last s) NaN = nth i s NaN.
Proof.
  revert last i. induction s as [|c t IH]; intros last i H.
  - destruct i; simpl in *; congruence.
  - destruct i as [|i].
    + destruct c; simpl in *; congruence.
    + destruct c; simpl in *; now apply IH.
Qed.

Lemma ffill_from_leading (s : Series) (last : cell) (i : nat) :
  i < length s ->
  (forall j, j <= i -> nth j s NaN = NaN) ->
  nth i (ffill_from last s) NaN = last.
Proof.
  revert last i. induction s as [|c t IH]; intros last i Hlen Hall.
  - simpl in Hlen. lia.
  - assert (Hc : c = NaN) by (apply (Hall 0); lia). subst c.
    destruct i as [|i]; simpl; auto.
    apply IH.
    + simpl in Hlen. lia.
    + intros j Hj. apply (Hall (S j)). lia.
Qed.

Lemma ffill_from_nearest (s : Series) (last : cell) (i j : nat) :
  j < i -> i < length s ->
  nth j s NaN <> NaN ->
  (forall k, j < k <= i -> nth k s NaN = NaN) ->
  nth i (ffill_from last s) NaN = nth j s NaN.
Proof.
  revert last i j. induction s as [|c t IH]; intros last i j Hji Hlen Hj Hgap.
  - simpl in Hlen. lia.
  - destruct i as [|i]; [lia|]. simpl in Hlen.
    destruct j as [|j].
    + simpl in Hj.
      assert (Hrest : nth i (ffill_from c t) NaN = c).
      { apply ffill_from_leading; [lia|].
        intros k Hk. apply (Hgap (S k)). lia. }
      destruct c; simpl; congruence.
    + assert (Hgo : forall l, nth i (ffill_from l t) NaN = nth j t NaN).
      { intros l. apply IH; [lia | lia | exact Hj |].
        intros k Hk. apply (Hgap (S k)). lia. }
      destruct c; simpl; apply Hgo.
Qed.

Lemma fill_column_same (c : string) (df df' : DataFrame) (s : Series) :
  fill_column c df = Ok df' -> getitem c df = Ok s ->
  getitem c df' = Ok (ffill s).
Proof.
  unfold fill_column. intros H Hs. rewrite Hs in H. simpl in H.
  injection H as <-. apply getitem_setitem_same.
Qed.

Lemma fill_column_other (c c' : string) (df df' : DataFrame) :
  c <> c' -> fill_column c' df = Ok df' -> getitem c df' = getitem c df.
Proof.
  unfold fill_column. intros Hne H.
  destruct (getitem c' df) as [s|e]; simpl in H; [|discriminate].
  injection H as <-. now apply getitem_setitem_other.
Qed.

Lemma fill_column_present (c : string) (df : DataFrame) :
  has_column c df = true -> exists df', fill_column c df = Ok df'.
Proof.
  intros H. apply has_column_getitem in H as [s Hs].
  unfold fill_column. rewrite Hs. simpl. eauto.
Qed.

Lemma fill_column_absent (c : string) (df : DataFrame) :
  has_column c df = false -> fill_column c df = Raise (KeyError c).
Proof.
  intros H. unfold fill_column.
  now rewrite (has_column_false_getitem _ _ H).
Qed.

Lemma fill_column_columns (c : string) (df df' : DataFrame) :
  fill_column c df = Ok df' -> columns df' = columns df.
Proof.
  unfold fill_column. intros H.
  destruct (getitem c df) as [s|e] eqn:Hs; simpl in H; [|discriminate].
  injection H as <-. apply columns_setitem_present.
  apply has_column_getitem. eauto.
Qed.

Lemma fill_column_has_column (c c' : string) (df df' : DataFrame) :
  fill_column c' df = Ok df' -> has_column c df' = has_column c df.
Proof.
  intros H. unfold has_column. now rewrite (fill_column_columns _ _ _ H).
Qed.

Lemma hierarchical_fill_columns (m : Mode) (df df' : DataFrame) :
  hierarchical_fill m df = Ok df' -> columns df' = columns df.
Proof.
  destruct m; simpl; intros H.
  - destruct (fill_column "state_name" df) as [d1|] eqn:E1; [|discriminate].
    simpl in H.
    destruct (fill_column "district_name" d1) as [d2|] eqn:E2; [|discriminate].
    simpl in H.
    rewrite (fill_column_columns _ _ _ H), (fill_column_columns _ _ _ E2).
    exact (fill_column_columns _ _ _ E1).
  - destruct (fill_column "state_name" df) as [d1|] eqn:E1; [|discriminate].
    simpl in H.
    rewrite (fill_column_columns _ _ _ H).
    exact (fill_column_columns _ _ _ E1).
Qed.

Ltac skip_fill E :=
  rewrite (fun H => fill_column_other _ _ _ _ H E) by discriminate.

(** Every filled column of the result is the forward fill of the column
    the input had. *)
Lemma hierarchical_fill_get (m : Mode) (df : DataFrame) :
  (forall c, In c (fill_columns m) -> has_column c df = true) ->
  exists df', hierarchical_fill m df = Ok df' /\
    forall c s, In c (fill_columns m) -> getitem c df = Ok s ->
      getitem c df' = Ok (ffill s).
Proof.
  intros Hhas. destruct m; simpl in *.
  - destruct (fill_column_present "state_name" df) as [d1 E1]; [auto|].
    destruct (fill_column_present "district_name" d1) as [d2 E2].
    { rewrite (fill_column_has_column _ _ _ _ E1). auto. }
    destruct (fill_column_present "registration_circles" d2) as [d3 E3].
    { rewrite (fill_column_has_column _ _ _ _ E2),
              (fill_column_has_column _ _ _ _ E1). auto 6. }
    exists d3. rewrite E1. simpl. rewrite E2. simpl. split; [exact E3|].
    intros c s [<-|[<-|[<-|[]]]] Hs.
    + skip_fill E3.
      skip_fill E2.
      exact (fill_column_same _ _ _ _ E1 Hs).
    + skip_fill E3.
      apply (fill_column_same _ _ _ _ E2).
      now skip_fill E1.
    + apply (fill_column_same _ _ _ _ E3).
      skip_fill E2.
      now skip_fill E1.
  - destruct (fill_column_present "state_name" df) as [d1 E1]; [auto|].
    destruct (fill_column_present "district_name" d1) as [d2 E2].
    { rewrite (fill_column_has_column _ _ _ _ E1). auto. }
    exists d2. rewrite E1. simpl. split; [exact E2|].
    intros c s [<-|[<-|[]]] Hs.
    + skip_fill E2.
      exact (fill_column_same _ _ _ _ E1 Hs).
    + apply (fill_column_same _ _ _ _ E2).
      now skip_fill E1.
Qed.

(** C7.  In both modes the fill stage runs on every table that has the
    filled columns ([state_name], [district_name] and, in the table view
    only, [registration_circles]); a missing cell of a filled column then
    holds the nearest non-missing value before it in row order, and it stays
    missing when no value precedes it, as at row 0. *)
Theorem hierarchical_fill_nearest_preceding (m : Mode) (df : DataFrame) :
  (forall c, In c (fill_columns m) -> has_column c df = true) ->
  exists df', hierarchical_fill m df = Ok df' /\
    forall c s i, In c (fill_columns m) -> getitem c df = Ok s ->
      i < length s -> nth i s NaN = NaN ->
      exists s', getitem c df' = Ok s' /\ length s' = length s /\
        (i = 0 -> nth i s' NaN = NaN) /\
        (forall v, nearest_preceding s i v -> nth i s' NaN = v) /\
        ((forall j, j < i -> nth j s NaN = NaN) -> nth i s' NaN = NaN).
Proof.
  intros Hhas.
  destruct (hierarchical_fill_get m df Hhas) as [df' [Hrun Hget]].
  exists df'. split; [exact Hrun|].
  intros c s i Hc Hs Hi Hmiss.
  exists (ffill s). split; [now apply Hget|].
  assert (Hlead : (forall j, j < i -> nth j s NaN = NaN) ->
                  nth i (ffill s) NaN = NaN).
  { intros Hall. apply ffill_from_leading; [exact Hi|].
    intros j Hj. destruct (Nat.eq_dec j i) as [->|Hne]; [exact Hmiss|].
    apply Hall. lia. }
  split; [apply ffill_from_length|].
  split; [|split].
  - intros ->. apply Hlead. intros j Hj. lia.
  - intros v [j [Hji [Hv [Hnn Hgap]]]]. subst v.
    apply ffill_from_nearest; auto.
    intros k Hk. destruct (Nat.eq_dec k i) as [->|Hne]; [exact Hmiss|].
    apply Hgap. lia.
  - exact Hlead.
Qed.

Lemma hierarchical_fill_nearest_preceding_witness :
  exists df' s',
    hierarchical_fill TableView sparse_labels = Ok df' /\
    getitem "district_name" df' = Ok s' /\
    nth 0 s' NaN = NaN /\ nth 2 s' NaN = Str "X".
Proof.
  destruct (hierarchical_fill_nearest_preceding TableView sparse_labels)
    as [df' [Hrun Hfill]].
  - intros c [<-|[<-|[<-|[]]]]; reflexivity.
  - destruct (Hfill "district_name" [NaN; Str "X"; NaN] 2)
      as [s' [Hget [_ [_ [Hnear _]]]]];
      [simpl; auto | reflexivity | simpl; lia | reflexivity |].
    destruct (Hfill "district_name" [NaN; Str "X"; NaN] 0)
      as [s0 [Hget0 [_ [Hzero _]]]];
      [simpl; auto | reflexivity | simpl; lia | reflexivity |].
    exists df', s'. repeat split; auto.
    + rewrite Hget in Hget0. injection Hget0 as <-. now apply Hzero.
    + apply Hnear. exists 1. split; [lia|]. split; [reflexivity|].
      split; [discriminate|]. intros k Hk. lia.
Defined.

(** ** Numeric coercion *)

Lemma mem_In (c : string) (l : list string) : mem c l = true <-> In c l.
Proof.
  unfold mem. rewrite existsb_exists. split.
  - intros [x [Hx E]]. apply String.eqb_eq in E. now subst.
  - intros H. exists c. split; [exact H | apply String.eqb_refl].
Qed.

Lemma getitem_numeric_coercion (parse : string -> option Q)
    (cols : list string) (c : string) (df : DataFrame) :
  getitem c (numeric_coercion parse cols df) =
  if mem c cols then s <- getitem c df ;; Ok (coerce_series parse s)
  else getitem c df.
Proof.
  unfold numeric_coercion.
  induction df as [|[name s] rest IH]; simpl.
  - now destruct (mem c cols).
  - destruct (String.eqb name c) eqn:E.
    + apply String.eqb_eq in E. subst name.
      destruct (mem c cols); simpl; now rewrite String.eqb_refl.
    + destruct (mem name cols); simpl; rewrite E; exact IH.
Qed.

Lemma columns_numeric_coercion (parse : string -> option Q)
    (cols : list string) (df : DataFrame) :
  columns (numeric_coercion parse cols df) = columns df.
Proof.
  unfold numeric_coercion, columns. rewrite map_map.
  apply map_ext. intros [name s]. simpl. now destruct (mem name cols).
Qed.

Lemma coerce_cell_cases (parse : string -> option Q) (c : cell) :
  exists q, fillna_zero (to_numeric parse c) = Num q /\
    match c with
    | NaN => q = 0%Q
    | Num x => q = x
    | Str t => match parse t with Some x => q = x | None => q = 0%Q end
    end.
Proof.
  destruct c as [|x|t]; simpl; eauto.
  destruct (parse t); simpl; eauto.
Qed.




(** ** Min-max scaling *)












Lemma fit_transform_runs (X : list Q) :
  X <> [] ->
  exists index, MinMaxScaler_fit_transform X = Ok index /\
                length index = length X.
Proof.
  destruct X as [|x t]; [congruence|]. intros _.
  eexists. split; [reflexivity|]. now rewrite length_map.
Qed.





(** ** Crime index stage *)

Lemma row_totals_length (vs : list Series) (n : nat) :
  length (row_totals vs n) = n.
Proof. unfold row_totals. now rewrite length_map, length_seq. Qed.

Lemma cell_num_Num (l : list Q) : map cell_num (map Num l) = l.
Proof. rewrite map_map. simpl. apply map_id. Qed.

Lemma crime_index_stage_unfold (cols : list string) (agg : DataFrame)
    (vs : list Series) :
  mapM (fun c => getitem c agg) cols = Ok vs ->
  crime_index_stage cols agg =
  (index <- MinMaxScaler_fit_transform (row_totals vs (nrows agg)) ;;
   Ok (setitem "crime_index" (map Num index)
         (setitem "total_crime" (map Num (row_totals vs (nrows agg))) agg))).
Proof.
  intros H. unfold crime_index_stage. rewrite H. simpl.
  rewrite getitem_setitem_same. simpl.
  unfold sum_axis1. now rewrite cell_num_Num.
Qed.






(** ** The pipeline, stage by stage *)

Lemma preprocess_columns (m : Mode) (raw df : DataFrame) :
  preprocess m raw = Ok df -> columns df = columns (normalize_columns raw).
Proof.
  unfold preprocess. intros H.
  destruct (hierarchical_fill m (normalize_columns raw)) as [d|] eqn:E;
    [|discriminate].
  simpl in H. destruct (check_required_columns m d); [|discriminate].
  simpl in H. injection H as <-.
  exact (hierarchical_fill_columns _ _ _ E).
Qed.

Lemma crime_cols_columns (m : Mode) (df df' : DataFrame) :
  columns df = columns df' -> crime_cols m df = crime_cols m df'.
Proof. unfold crime_cols. now intros ->. Qed.

Lemma crime_cols_In (m : Mode) (df : DataFrame) (c : string) :
  In c (crime_cols m df) ->
  In c (columns df) /\ ~ In c (exclude_cols m).
Proof.
  unfold crime_cols. rewrite filter_In. intros [Hin Hex].
  split; [exact Hin|]. intros Hc. apply mem_In in Hc.
  rewrite Hc in Hex. discriminate.
Qed.

Lemma district_pipeline_stages (parse : string -> option Q) (m : Mode)
    (raw : DataFrame) (y s : selection) (out : DataFrame) :
  district_pipeline parse m raw y s = Ok out ->
  exists df filtered_df district_df,
    preprocess m raw = Ok df /\
    filter_stage (numeric_coercion parse (crime_cols m df) df) y s
      = Ok filtered_df /\
    groupby_sum (group_cols m) (crime_cols m df) filtered_df
      = Ok district_df /\
    crime_index_stage (crime_cols m df) district_df = Ok out.
Proof.
  unfold district_pipeline. intros H.
  destruct (preprocess m raw) as [df|]; [|discriminate]. simpl in H.
  destruct (filter_stage _ y s) as [f|] eqn:Ef; [|discriminate].
  simpl in H.
  destruct (groupby_sum _ _ f) as [d|] eqn:Eg; [|discriminate].
  simpl in H. exists df, f, d. auto.
Qed.




(** ** Missing columns *)

Lemma check_required_columns_missing (df : DataFrame) :
  has_column "lat" df = false \/ has_column "lon" df = false ->
  check_required_columns MapView df = Raise (StopException missing_geo_message).
Proof.
  intros H. unfold check_required_columns, required_columns. cbn [forallb].
  destruct H as [-> | ->]; simpl; [reflexivity|].
  now destruct (has_column "lat" df).
Qed.

Lemma pipeline_stops_with_preprocess (parse : string -> option Q) (m : Mode)
    (raw : DataFrame) (y s : selection) (e : exn) :
  preprocess m raw = Raise e -> district_pipeline parse m raw y s = Raise e.
Proof. unfold district_pipeline. now intros ->. Qed.

(** C4.  In map mode an upload that lacks [lat] or [lon] once its column
    names are normalised never reaches the aggregation: the run ends in the
    stages before the crime columns are identified.  When the upload has the
    [state_name] and [district_name] columns the fill stage reads, the end
    is the [st.error] and [st.stop] of the required-columns check. *)
Theorem map_mode_missing_geo_columns (parse : string -> option Q)
    (raw : DataFrame) (y s : selection) :
  has_column "lat" (normalize_columns raw) = false \/
  has_column "lon" (normalize_columns raw) = false ->
  (exists e,
     preprocess MapView raw = Raise e /\
     district_pipeline parse MapView raw y s = Raise e /\
     (e = KeyError "state_name" \/ e = KeyError "district_name" \/
      e = StopException missing_geo_message)) /\
  (has_column "state_name" (normalize_columns raw) = true ->
   has_column "district_name" (normalize_columns raw) = true ->
   district_pipeline parse MapView raw y s
   = Raise (StopException missing_geo_message)).
Proof.
  intros Hgeo.
  set (df := normalize_columns raw) in *.
  assert (Hpre : (has_column "state_name" df = false /\
                  preprocess MapView raw = Raise (KeyError "state_name")) \/
                 (has_column "state_name" df = true /\
                  has_column "district_name" df = false /\
                  preprocess MapView raw = Raise (KeyError "district_name")) \/
                 (has_column "state_name" df = true /\
                  has_column "district_name" df = true /\
                  preprocess MapView raw
                  = Raise (StopException missing_geo_message))).
  { unfold preprocess. fold df. simpl.
    destruct (has_column "state_name" df) eqn:Hs.
    - destruct (fill_column_present _ _ Hs) as [d1 E1]. rewrite E1. simpl.
      pose proof (fill_column_has_column "district_name" _ _ _ E1) as Hd1.
      destruct (has_column "district_name" df) eqn:Hd.
      + destruct (fill_column_present _ _ Hd1) as [d2 E2]. rewrite E2. simpl.
        right. right. repeat split.
        rewrite check_required_columns_missing; [reflexivity|].
        rewrite !(fill_column_has_column _ _ _ _ E2).
        rewrite !(fill_column_has_column _ _ _ _ E1). exact Hgeo.
      + right. left. repeat split.
        now rewrite (fill_column_absent _ _ Hd1).
    - left. split; [reflexivity|].
      now rewrite (fill_column_absent _ _ Hs). }
  split.
  - destruct Hpre as [[_ H]|[[_ [_ H]]|[_ [_ H]]]];
      eexists; (split; [exact H|]);
      (split; [exact (pipeline_stops_with_preprocess _ _ _ _ _ _ H)|]); auto.
  - intros Hs Hd.
    destruct Hpre as [[Hs' _]|[[_ [Hd' _]]|[_ [_ H]]]]; try congruence.
    exact (pipeline_stops_with_preprocess _ _ _ _ _ _ H).
Qed.

Lemma map_mode_missing_geo_columns_witness :
  district_pipeline parse_integer_literal MapView upload_map_without_lon
    (Some (Num 2020)) (Some (Str "A"))
  = Raise (StopException missing_geo_message).
Proof.
  apply (map_mode_missing_geo_columns parse_integer_literal
           upload_map_without_lon (Some (Num 2020)) (Some (Str "A")));
    [right|..]; reflexivity.
Defined.

(** C10, as the code has it.  In table-view mode the fill stage reads
    [registration_circles] like the other two filled columns: an upload
    that has [state_name] and [district_name] but lacks
    [registration_circles] ends the run with a [KeyError] naming that
    column. *)
Theorem table_mode_requires_registration_circles
    (parse : string -> option Q) (raw : DataFrame) (y s : selection) :
  has_column "state_name" (normalize_columns raw) = true ->
  has_column "district_name" (normalize_columns raw) = true ->
  has_column "registration_circles" (normalize_columns raw) = false ->
  district_pipeline parse TableView raw y s
  = Raise (KeyError "registration_circles").
Proof.
  intros Hs Hd Hr. apply pipeline_stops_with_preprocess.
  unfold preprocess. simpl.
  destruct (fill_column_present _ _ Hs) as [d1 E1]. rewrite E1. simpl.
  destruct (fill_column_present "district_name" d1) as [d2 E2].
  { now rewrite (fill_column_has_column _ _ _ _ E1). }
  rewrite E2. simpl.
  rewrite fill_column_absent; [reflexivity|].
  rewrite (fill_column_has_column _ _ _ _ E2).
  now rewrite (fill_column_has_column _ _ _ _ E1).
Qed.

Lemma table_mode_requires_registration_circles_witness :
  district_pipeline parse_integer_literal TableView upload_without_circles
    (Some (Num 2020)) (Some (Str "A"))
  = Raise (KeyError "registration_circles").
Proof.
  apply table_mode_requires_registration_circles; reflexivity.
Defined.

(** The table view does not complete on an upload that has the year, the
    state, the district and a crime-type column but no
    [registration_circles]. *)
Lemma table_mode_without_circles_does_not_complete :
  ~ exists out,
      district_pipeline parse_integer_literal TableView upload_without_circles
        (Some (Num 2020)) (Some (Str "A")) = Ok out.
Proof. intros [out H]. vm_compute in H. discriminate. Qed.

(** ** Empty selection *)

Lemma map_fst_combine {A B : Type} (l : list A) (l' : list B) :
  length l = length l' -> map fst (combine l l') = l.
Proof.
  revert l'. induction l as [|a l IH]; intros [|b l'] H; simpl in *;
    try discriminate; auto.
  f_equal. apply IH. lia.
Qed.

Lemma Forall_snd_combine {A B : Type} (P : B -> Prop) (l : list A)
    (l' : list B) :
  Forall P l' -> Forall (fun ab => P (snd ab)) (combine l l').
Proof.
  intros H. revert l. induction H as [|b l' Hb _ IH]; intros [|a l]; simpl;
    auto.
Qed.

Lemma groupby_sum_empty_frame (by_ cols : list string) (df : DataFrame)
    (A : DataFrame) :
  nrows df = 0 -> groupby_sum by_ cols df = Ok A ->
  columns A = by_ ++ cols /\ Forall (fun cs => snd cs = []) A.
Proof.
  unfold groupby_sum. intros Hn H.
  destruct (mapM (fun c => getitem c df) by_) as [ks|] eqn:Hk; [|discriminate].
  destruct (mapM (fun c => getitem c df) cols) as [vs|] eqn:Hv;
    [|discriminate].
  simpl in H. injection H as <-. rewrite Hn. unfold group_keys. simpl.
  apply mapM_length in Hv.
  unfold columns. rewrite map_app. split.
  - f_equal; apply map_fst_combine.
    + now rewrite length_map, length_seq.
    + now rewrite length_map.
  - apply Forall_app.
    split; apply (Forall_snd_combine (fun v : Series => v = []));
      apply Forall_forall; intros x Hx;
      apply in_map_iff in Hx as [y [<- _]]; reflexivity.
Qed.

(** An aggregate without rows stops the crime-index stage: the scaler
    refuses it. *)
Lemma crime_index_stage_empty (cols : list string) (agg : DataFrame) :
  nrows agg = 0 ->
  (forall c, In c cols -> has_column c agg = true) ->
  crime_index_stage cols agg = Raise (ValueError no_samples_message).
Proof.
  intros Hn Hcols.
  destruct (mapM_getitem_present cols agg Hcols) as [vs Hvs].
  rewrite (crime_index_stage_unfold _ _ _ Hvs). rewrite Hn. reflexivity.
Qed.

Lemma has_column_columns (c : string) (df df' : DataFrame) :
  columns df = columns df' -> has_column c df = has_column c df'.
Proof. unfold has_column. now intros ->. Qed.

Lemma has_column_In (c : string) (df : DataFrame) :
  has_column c df = true <-> In c (columns df).
Proof. apply mem_In. Qed.

Lemma filter_stage_columns (df f : DataFrame) (y s : selection) :
  filter_stage df y s = Ok f -> columns f = columns df.
Proof.
  unfold filter_stage. intros H.
  destruct (getitem "year" df); [|discriminate]. simpl in H.
  destruct (getitem "state_name" df); [|discriminate]. simpl in H.
  injection H as <-. unfold filter_rows, columns. rewrite map_map.
  reflexivity.
Qed.

Lemma fill_column_filled (c : string) (df df' : DataFrame) :
  fill_column c df = Ok df' -> has_column c df' = true.
Proof.
  unfold fill_column. intros H.
  destruct (getitem c df) as [v|]; [|discriminate].
  simpl in H. injection H as <-.
  apply has_column_getitem. eexists. apply getitem_setitem_same.
Qed.

(** Once the first stages have run, the frame has the key columns of its
    mode. *)
Lemma preprocess_group_cols (m : Mode) (raw df : DataFrame) (c : string) :
  preprocess m raw = Ok df -> In c (group_cols m) -> has_column c df = true.
Proof.
  unfold preprocess. intros H Hc.
  destruct (hierarchical_fill m (normalize_columns raw)) as [d|] eqn:Hfill;
    [|discriminate].
  simpl in H.
  destruct (check_required_columns m d) eqn:Hcheck; [|discriminate].
  simpl in H. injection H as <-.
  assert (Hdistrict : has_column "district_name" d = true).
  { destruct m; simpl in Hfill;
      destruct (fill_column "state_name" (normalize_columns raw))
        as [d1|] eqn:E1; try discriminate; simpl in Hfill.
    - destruct (fill_column "district_name" d1) as [d2|] eqn:E2;
        [|discriminate].
      simpl in Hfill.
      rewrite (fill_column_has_column _ _ _ _ Hfill).
      exact (fill_column_filled _ _ _ E2).
    - exact (fill_column_filled _ _ _ Hfill). }
  destruct m; simpl in Hc.
  - destruct Hc as [<-|[]]. exact Hdistrict.
  - unfold check_required_columns, required_columns in Hcheck.
    cbn [forallb] in Hcheck.
    destruct (has_column "lat" d) eqn:Hlat; [|discriminate].
    destruct (has_column "lon" d) eqn:Hlon; [|discriminate].
    destruct Hc as [<-|[<-|[<-|[]]]]; auto.
Qed.

(** Whatever the upload and the mode: when the selection matches no row,
    the run ends with the [ValueError] of the scaler. *)
Lemma empty_selection_always_raises (parse : string -> option Q) (m : Mode)
    (raw df filtered_df : DataFrame) (y s : selection) :
  preprocess m raw = Ok df ->
  filter_stage (numeric_coercion parse (crime_cols m df) df) y s
    = Ok filtered_df ->
  nrows filtered_df = 0 ->
  district_pipeline parse m raw y s = Raise (ValueError no_samples_message).
Proof.
  intros Hpre Hfilter Hzero.
  unfold district_pipeline. rewrite Hpre. simpl. rewrite Hfilter. simpl.
  assert (Hcolumns : columns filtered_df = columns df).
  { rewrite (filter_stage_columns _ _ _ _ Hfilter).
    apply columns_numeric_coercion. }
  destruct (mapM_getitem_present (group_cols m) filtered_df) as [ks Hks].
  { intros c Hc. rewrite (has_column_columns _ _ _ Hcolumns).
    exact (preprocess_group_cols _ _ _ _ Hpre Hc). }
  destruct (mapM_getitem_present (crime_cols m df) filtered_df) as [vs Hvs].
  { intros c Hc. rewrite (has_column_columns _ _ _ Hcolumns).
    apply has_column_In. now apply crime_cols_In in Hc. }
  destruct (groupby_sum (group_cols m) (crime_cols m df) filtered_df)
    as [A|e] eqn:Hagg.
  - simpl.
    destruct (groupby_sum_empty_frame _ _ _ _ Hzero Hagg) as [HcA Hempty].
    apply crime_index_stage_empty.
    + destruct A as [|[name v] A]; [reflexivity|].
      inversion Hempty as [|x l Hx _]; subst. simpl in *. now rewrite Hx.
    + intros c Hc. apply has_column_In. rewrite HcA.
      apply in_or_app. now right.
  - unfold groupby_sum in Hagg. rewrite Hks, Hvs in Hagg. discriminate.
Qed.

(** C3, on the code.  The upload has one row whose state is left empty,
    so the only state the select box offers matches no row.  The filter and
    the aggregation go through, and the aggregate is the empty table with
    the columns [district_name] and [theft]; the crime-index stage then
    raises [ValueError] instead of adding an empty [crime_index] column. *)
Theorem empty_selection_raises_ValueError :
  (exists df filtered_df,
     preprocess TableView upload_missing_state = Ok df /\
     filter_stage
       (numeric_coercion parse_integer_literal (crime_cols TableView df) df)
       (Some (Num 2020)) (Some NaN) = Ok filtered_df /\
     nrows filtered_df = 0 /\
     groupby_sum (group_cols TableView) (crime_cols TableView df) filtered_df
     = Ok [("district_name", []); ("theft", [])]) /\
  district_pipeline parse_integer_literal TableView upload_missing_state
    (Some (Num 2020)) (Some NaN)
  = Raise (ValueError no_samples_message).
Proof.
  split; [|reflexivity].
  eexists. eexists. split; [reflexivity|].
  split; [reflexivity|]. split; reflexivity.
Qed.

(** ** Aggregator *)

Lemma cell_same_refl (c : cell) : cell_same c c = true.
Proof.
  destruct c as [|x|t]; simpl; auto.
  - apply Qeq_bool_iff. reflexivity.
  - apply String.eqb_refl.
Qed.

Lemma cell_same_sym (a b : cell) : cell_same a b = true -> cell_same b a = true.
Proof.
  destruct a as [|x|t], b as [|y|u]; simpl; auto.
  - intros H. apply Qeq_bool_iff in H. apply Qeq_bool_iff. now symmetry.
  - now rewrite String.eqb_sym.
Qed.

Lemma cell_same_trans (a b c : cell) :
  cell_same a b = true -> cell_same b c = true -> cell_same a c = true.
Proof.
  destruct a as [|x|t], b as [|y|u], c as [|z|v]; simpl; auto;
    try discriminate.
  - intros H1 H2. apply Qeq_bool_iff in H1, H2. apply Qeq_bool_iff.
    now rewrite H1.
  - intros H1 H2. apply String.eqb_eq in H1, H2. subst.
    apply String.eqb_refl.
Qed.

Lemma key_eq_refl (k : key) : key_eq k k.
Proof.
  unfold key_eq. induction k as [|c k IH]; simpl; auto.
  now rewrite cell_same_refl.
Qed.

Lemma key_eq_sym (a b : key) : key_eq a b -> key_eq b a.
Proof.
  unfold key_eq. revert b. induction a as [|x a IH]; intros [|y b]; simpl;
    auto.
  intros H. apply andb_true_iff in H as [H1 H2].
  now rewrite (cell_same_sym _ _ H1), (IH _ H2).
Qed.

Lemma key_eq_trans (a b c : key) : key_eq a b -> key_eq b c -> key_eq a c.
Proof.
  unfold key_eq. revert b c.
  induction a as [|x a IH]; intros [|y b] [|z c]; simpl; auto;
    try discriminate.
  intros H1 H2.
  apply andb_true_iff in H1 as [H1 H1'].
  apply andb_true_iff in H2 as [H2 H2'].
  now rewrite (cell_same_trans _ _ _ H1 H2), (IH _ _ H1' H2').
Qed.

#[local] Instance key_eq_Equivalence : Equivalence key_eq.
Proof.
  split.
  - exact key_eq_refl.
  - exact key_eq_sym.
  - exact key_eq_trans.
Qed.

Lemma InA_filter_key (f : key -> bool) (k : key) (l : list key) :
  InA key_eq k (filter f l) -> InA key_eq k l.
Proof.
  rewrite !InA_alt. intros [y [E Hy]]. apply filter_In in Hy as [Hy _]. eauto.
Qed.

Lemma NoDupA_filter_key (f : key -> bool) (l : list key) :
  NoDupA key_eq l -> NoDupA key_eq (filter f l).
Proof.
  induction 1 as [|k l Hk _ IH]; simpl; [constructor|].
  destruct (f k); auto. constructor; auto.
  intros H. apply Hk. exact (InA_filter_key _ _ _ H).
Qed.

Lemma unique_In (k : key) (l : list key) : In k (unique l) -> In k l.
Proof.
  induction l as [|a l IH]; simpl; auto.
  intros [->|H]; auto. apply filter_In in H as [H _]. auto.
Qed.

Lemma unique_InA (k : key) (l : list key) :
  InA key_eq k l -> InA key_eq k (unique l).
Proof.
  induction l as [|a l IH]; intros H; simpl.
  - inversion H.
  - destruct (key_eqb a k) eqn:E.
    + left. apply key_eq_sym. exact E.
    + right. inversion H as [? ? Hak|? ? Hin]; subst.
      * apply key_eq_sym in Hak. unfold key_eq in Hak. congruence.
      * apply IH in Hin. apply InA_alt in Hin as [y [Ey Hy]].
        apply InA_alt. exists y. split; [exact Ey|].
        apply filter_In. split; [exact Hy|].
        destruct (key_eqb a y) eqn:Eay; auto.
        assert (key_eq a k).
        { eapply key_eq_trans; [exact Eay | now apply key_eq_sym]. }
        unfold key_eq in *. congruence.
Qed.

Lemma unique_NoDupA (l : list key) : NoDupA key_eq (unique l).
Proof.
  induction l as [|a l IH]; simpl; constructor.
  - intros H. apply InA_alt in H as [y [Ey Hy]].
    apply filter_In in Hy as [_ Hy]. unfold key_eq in Ey.
    rewrite Ey in Hy. discriminate.
  - now apply NoDupA_filter_key.
Qed.

Lemma insert_key_In (x k : key) (l : list key) :
  In x (insert_key k l) <-> x = k \/ In x l.
Proof.
  induction l as [|a l IH]; simpl.
  - intuition.
  - destruct (key_leb k a); simpl; [intuition|]. rewrite IH. intuition.
Qed.

Lemma sort_keys_In (x : key) (l : list key) : In x (sort_keys l) <-> In x l.
Proof.
  induction l as [|a l IH]; simpl; [tauto|].
  rewrite insert_key_In, IH. intuition.
Qed.

Lemma sort_keys_InA (x : key) (l : list key) :
  InA key_eq x (sort_keys l) <-> InA key_eq x l.
Proof.
  rewrite !InA_alt. split; intros [y [E H]]; exists y;
    (split; [exact E|]); now apply sort_keys_In.
Qed.

Lemma insert_key_NoDupA (k : key) (l : list key) :
  NoDupA key_eq l -> ~ InA key_eq k l -> NoDupA key_eq (insert_key k l).
Proof.
  induction 1 as [|a l Ha Hl IH]; intros Hk; simpl.
  - constructor; [intros H; inversion H | constructor].
  - destruct (key_leb k a).
    + constructor; [exact Hk | now constructor].
    + constructor.
      * intros H. apply InA_alt in H as [y [Ey Hy]].
        apply insert_key_In in Hy as [->|Hy].
        -- apply Hk. left. now apply key_eq_sym.
        -- apply Ha. apply InA_alt. eauto.
      * apply IH. intros H. apply Hk. now right.
Qed.

Lemma sort_keys_NoDupA (l : list key) :
  NoDupA key_eq l -> NoDupA key_eq (sort_keys l).
Proof.
  induction 1 as [|a l Ha Hl IH]; simpl; [constructor|].
  apply insert_key_NoDupA; auto.
  now rewrite sort_keys_InA.
Qed.

Lemma NoDupA_nth_distinct (l : list key) (i j : nat) :
  NoDupA key_eq l -> i < j < length l ->
  key_eqb (nth i l []) (nth j l []) = false.
Proof.
  intros H. revert i j. induction H as [|a l Ha Hl IH]; intros i j Hij.
  - simpl in Hij. lia.
  - destruct j as [|j]; [lia|]. simpl in Hij. destruct i as [|i]; simpl.
    + destruct (key_eqb a (nth j l [])) eqn:E; auto.
      exfalso. apply Ha. apply InA_alt. exists (nth j l []).
      split; [exact E | apply nth_In; lia].
    + apply IH. lia.
Qed.

(** The group keys: pairwise distinct, each the valid key of a row, and
    every valid key of a row among them. *)
Lemma group_keys_spec (ks : list Series) (n : nat) :
  NoDupA key_eq (group_keys ks n) /\
  (forall k, In k (group_keys ks n) ->
     key_valid k = true /\ exists i, i < n /\ row_key ks i = k) /\
  (forall i, i < n -> key_valid (row_key ks i) = true ->
     InA key_eq (row_key ks i) (group_keys ks n)).
Proof.
  unfold group_keys. split; [|split].
  - apply sort_keys_NoDupA, unique_NoDupA.
  - intros k Hk. apply sort_keys_In, unique_In, filter_In in Hk as [Hk Hv].
    split; [exact Hv|].
    apply in_map_iff in Hk as [i [E Hi]]. apply in_seq in Hi.
    exists i. split; [lia | exact E].
  - intros i Hi Hv. apply sort_keys_InA, unique_InA.
    apply In_InA; [exact key_eq_Equivalence|].
    apply filter_In. split; [|exact Hv].
    apply in_map. apply in_seq. lia.
Qed.

Lemma getitem_app_skip (c : string) (L X : DataFrame) :
  ~ In c (columns L) -> getitem c (L ++ X) = getitem c X.
Proof.
  induction L as [|[name s] L IH]; simpl; auto.
  intros H. destruct (String.eqb name c) eqn:E.
  - apply String.eqb_eq in E. subst. exfalso. apply H. now left.
  - apply IH. intros Hc. apply H. now right.
Qed.

Lemma columns_combine_incl (c : string) (names : list string)
    (ss : list Series) :
  In c (columns (combine names ss)) -> In c names.
Proof.
  unfold columns. intros H. apply in_map_iff in H as [[a s] [E H]].
  simpl in E. subst a. exact (in_combine_l _ _ _ _ H).
Qed.

Lemma mapM_getitem_keys (names : list string) (ss : list Series)
    (rest : DataFrame) :
  NoDup names -> length ss = length names ->
  mapM (fun c => getitem c (combine names ss ++ rest)) names = Ok ss.
Proof.
  intros Hnd. revert ss.
  induction Hnd as [|a names Ha Hnd IH]; intros [|s ss] Hlen;
    simpl in Hlen; try discriminate; auto.
  simpl. rewrite String.eqb_refl. simpl.
  rewrite (mapM_ext_in _
             (fun c => getitem c (combine names ss ++ rest))).
  - rewrite IH by lia. reflexivity.
  - intros c Hc. destruct (String.eqb a c) eqn:E; auto.
    apply String.eqb_eq in E. subst. contradiction.
Qed.

Lemma getitem_combine_map (g : Series -> Series) (F : DataFrame)
    (cols : list string) (vs : list Series) (c : string) (s : Series) :
  mapM (fun c => getitem c F) cols = Ok vs ->
  In c cols -> getitem c F = Ok s ->
  getitem c (combine cols (map g vs)) = Ok (g s).
Proof.
  revert vs. induction cols as [|a cols IH]; intros vs Hvs Hc Hs;
    [inversion Hc|].
  simpl in Hvs.
  destruct (getitem a F) as [v|] eqn:Ha; simpl in Hvs; [|discriminate].
  destruct (mapM (fun c => getitem c F) cols) as [vs'|] eqn:Hvs';
    simpl in Hvs; [|discriminate].
  injection Hvs as <-. simpl.
  destruct (String.eqb a c) eqn:E.
  - apply String.eqb_eq in E. subst. congruence.
  - apply IH; auto. destruct Hc as [->|Hc]; auto.
    rewrite String.eqb_refl in E. discriminate.
Qed.


Lemma map_nth_seq (k : key) :
  map (fun i => nth i k NaN) (seq 0 (length k)) = k.
Proof.
  induction k as [|c k IH]; simpl; auto.
  f_equal. rewrite <- seq_shift, map_map. exact IH.
Qed.

Lemma row_key_key_columns (keys : list key) (L j : nat) :
  (forall k, In k keys -> length k = L) -> j < length keys ->
  row_key (map (fun i => map (fun k => nth i k NaN) keys) (seq 0 L)) j
  = nth j keys [].
Proof.
  intros Hlen Hj. unfold row_key. rewrite map_map.
  rewrite <- (map_nth_seq (nth j keys [])).
  rewrite (Hlen (nth j keys [])) by (apply nth_In; exact Hj).
  apply map_ext. intros i.
  rewrite (nth_indep _ NaN ((fun k => nth i k NaN) [])).
  - now rewrite (map_nth (fun k => nth i k NaN)).
  - now rewrite length_map.
Qed.

Lemma row_key_length (ks : list Series) (i : nat) :
  length (row_key ks i) = length ks.
Proof. unfold row_key. apply length_map. Qed.

Lemma groupby_sum_nrows (by_ cols : list string) (keycols sums : list Series)
    (n : nat) :
  by_ <> [] -> length keycols = length by_ ->
  (forall s, In s keycols -> length s = n) ->
  nrows (combine by_ keycols ++ combine cols sums) = n.
Proof.
  destruct by_ as [|b by_]; [congruence|].
  destruct keycols as [|k keycols]; [discriminate|].
  intros _ _ H. simpl. apply H. now left.
Qed.



Lemma groupby_sum_columns (by_ cols : list string) (F A : DataFrame) :
  groupby_sum by_ cols F = Ok A -> columns A = by_ ++ cols.
Proof.
  unfold groupby_sum. intros H.
  destruct (mapM (fun c => getitem c F) by_) as [ks|] eqn:Hk; [|discriminate].
  destruct (mapM (fun c => getitem c F) cols) as [vs|] eqn:Hv;
    [|discriminate].
  simpl in H. injection H as <-. apply mapM_length in Hv.
  unfold columns. rewrite map_app.
  f_equal; apply map_fst_combine.
  - now rewrite length_map, length_seq.
  - now rewrite length_map.
Qed.

Lemma groupby_sum_well_formed (by_ cols : list string) (F A : DataFrame) :
  by_ <> [] -> groupby_sum by_ cols F = Ok A -> well_formed A.
Proof.
  unfold groupby_sum. intros Hne H.
  destruct (mapM (fun c => getitem c F) by_) as [ks|] eqn:Hk; [|discriminate].
  destruct (mapM (fun c => getitem c F) cols) as [vs|] eqn:Hv;
    [|discriminate].
  simpl in H. injection H as <-.
  set (keys := group_keys ks (nrows F)).
  unfold well_formed. rewrite groupby_sum_nrows with (n := length keys); auto.
  - apply Forall_app.
    split; apply (Forall_snd_combine (fun v : Series => length v = length keys));
      apply Forall_forall; intros x Hx;
      apply in_map_iff in Hx as [y [<- _]]; apply length_map.
  - now rewrite length_map, length_seq.
  - intros x Hx. apply in_map_iff in Hx as [y [<- _]]. apply length_map.
Qed.

(** The crime-type columns are never key columns: both scripts exclude
    their key columns from [crime_cols]. *)
Lemma crime_cols_not_group_cols (m : Mode) (df : DataFrame) (c : string) :
  In c (crime_cols m df) -> ~ In c (group_cols m).
Proof.
  intros Hc Hg. apply crime_cols_In in Hc as [_ Hex]. apply Hex.
  destruct m; simpl in *; intuition.
Qed.




(** ** Ranker *)

Lemma getitem_map_series (f : Series -> Series) (c : string) (df : DataFrame) :
  getitem c (map (fun cs => (fst cs, f (snd cs))) df) =
  s <- getitem c df ;; Ok (f s).
Proof.
  induction df as [|[name s] rest IH]; simpl; auto.
  destruct (String.eqb name c); auto.
Qed.

Lemma getitem_In (c : string) (s : Series) (df : DataFrame) :
  getitem c df = Ok s -> In (c, s) df.
Proof.
  induction df as [|[name v] rest IH]; simpl; [discriminate|].
  destruct (String.eqb name c) eqn:E; auto.
  apply String.eqb_eq in E. subst. intros H. injection H as <-. now left.
Qed.

Lemma well_formed_length (c : string) (s : Series) (df : DataFrame) :
  well_formed df -> getitem c df = Ok s -> length s = nrows df.
Proof.
  intros Hwf Hs. apply getitem_In in Hs.
  unfold well_formed in Hwf. rewrite Forall_forall in Hwf.
  exact (Hwf _ Hs).
Qed.

Lemma head_take (n : nat) (indexer : list nat) (df : DataFrame) :
  head n (take indexer df) = take (firstn n indexer) df.
Proof.
  unfold head, take. rewrite map_map. apply map_ext. intros [name s]. simpl.
  now rewrite firstn_map.
Qed.





Lemma cell_num_nth (s : Series) (i : nat) :
  cell_num (nth i s NaN) = nth i (map cell_num s) 0%Q.
Proof. now rewrite <- (map_nth cell_num). Qed.

Lemma insert_descending_perm (v : list Q) (i : nat) (l : list nat) :
  Permutation (i :: l) (insert_descending v i l).
Proof.
  induction l as [|j l IH]; simpl; auto.
  destruct (Qle_bool (nth j v 0%Q) (nth i v 0%Q)); auto.
  rewrite perm_swap. now constructor.
Qed.

Lemma insert_descending_sorted (v : list Q) (i : nat) (l : list nat) :
  descending (map (fun k => nth k v 0%Q) l) ->
  descending (map (fun k => nth k v 0%Q) (insert_descending v i l)).
Proof.
  unfold descending. induction l as [|j l IH]; intros H; simpl.
  - repeat constructor.
  - inversion H as [|a t Ht Ha]; subst.
    destruct (Qle_bool (nth j v 0%Q) (nth i v 0%Q)) eqn:E; simpl.
    + apply Qle_bool_iff in E. constructor; [exact H|].
      constructor; [exact E|].
      apply Forall_forall. intros b Hb. rewrite Forall_forall in Ha.
      eapply Qle_trans; [apply (Ha b Hb) | exact E].
    + constructor; [now apply IH|].
      apply Forall_forall. intros b Hb.
      apply in_map_iff in Hb as [k [<- Hk]].
      apply (Permutation_in _ (Permutation_sym
               (insert_descending_perm v i l))) in Hk.
      destruct Hk as [<-|Hk].
      * destruct (Qlt_le_dec (nth i v 0%Q) (nth j v 0%Q)) as [Hlt|Hle].
        -- now apply Qlt_le_weak.
        -- apply Qle_bool_iff in Hle. congruence.
      * rewrite Forall_forall in Ha. apply Ha.
        exact (in_map (fun k => nth k v 0%Q) _ _ Hk).
Qed.

Lemma stable_argsort_is_argsort (v : list Q) :
  argsort_descending v (stable_argsort_descending v).
Proof.
  unfold argsort_descending, stable_argsort_descending.
  generalize (seq 0 (length v)). intros l.
  induction l as [|i l [IHp IHs]]; simpl.
  - split; [constructor | constructor].
  - split.
    + rewrite <- insert_descending_perm. now constructor.
    + now apply insert_descending_sorted.
Qed.

Lemma top_districts_stable_is_top (df out : DataFrame) (top_n : nat) :
  top_districts_stable df top_n = Ok out -> top_districts df top_n out.
Proof.
  unfold top_districts_stable. intros H.
  destruct (getitem "crime_index" df) as [s|] eqn:Hs; [|discriminate].
  simpl in H. injection H as <-.
  eexists. split; [|reflexivity].
  exists s, (stable_argsort_descending (map cell_num s)).
  split; [exact Hs|]. split; [apply stable_argsort_is_argsort | reflexivity].
Qed.

Lemma In_setitem (c : string) (s : Series) (df : DataFrame)
    (x : string * Series) :
  In x (setitem c s df) -> snd x = s \/ In x df.
Proof.
  induction df as [|[name old] rest IH]; simpl.
  - intros [<-|[]]. now left.
  - destruct (String.eqb name c); simpl.
    + intros [<-|H]; auto.
    + intros [<-|H]; auto. destruct (IH H); auto.
Qed.

Lemma setitem_well_formed (c : string) (s : Series) (df : DataFrame) :
  well_formed df -> length s = nrows df -> well_formed (setitem c s df).
Proof.
  unfold well_formed. intros Hwf Hlen.
  rewrite (nrows_setitem _ _ _ Hlen).
  apply Forall_forall. intros x Hx.
  destruct (In_setitem _ _ _ _ Hx) as [E|Hin].
  - simpl. transitivity (length s); [f_equal; exact E | exact Hlen].
  - rewrite Forall_forall in Hwf. now apply Hwf.
Qed.

Lemma crime_index_stage_well_formed (cols : list string)
    (agg out : DataFrame) :
  well_formed agg -> crime_index_stage cols agg = Ok out -> well_formed out.
Proof.
  intros Hwf Hrun.
  destruct (mapM (fun c => getitem c agg) cols) as [vs|e] eqn:Hvs.
  - rewrite (crime_index_stage_unfold _ _ _ Hvs) in Hrun.
    destruct (MinMaxScaler_fit_transform (row_totals vs (nrows agg)))
      as [index|] eqn:Hfit; [|discriminate].
    simpl in Hrun. injection Hrun as <-.
    assert (Hlen : length (map Num (row_totals vs (nrows agg))) = nrows agg)
      by now rewrite length_map, row_totals_length.
    apply setitem_well_formed.
    + now apply setitem_well_formed.
    + rewrite (nrows_setitem _ _ _ Hlen), length_map.
      destruct (fit_transform_runs (row_totals vs (nrows agg)))
        as [idx [E L]].
      * intros E. rewrite E in Hfit. discriminate.
      * rewrite Hfit in E. injection E as ->.
        now rewrite L, row_totals_length.
  - unfold crime_index_stage in Hrun. rewrite Hvs in Hrun. discriminate.
Qed.

(** The aggregate the pipeline hands to the ranker is a well-formed frame
    with a [crime_index] column. *)
Lemma district_pipeline_well_formed (parse : string -> option Q) (m : Mode)
    (raw : DataFrame) (y s : selection) (out : DataFrame) :
  district_pipeline parse m raw y s = Ok out ->
  well_formed out /\ has_column "crime_index" out = true.
Proof.
  intros Hrun.
  destruct (district_pipeline_stages _ _ _ _ _ _ Hrun)
    as [df [f [d [_ [_ [Hagg Hstage]]]]]].
  split.
  - apply (crime_index_stage_well_formed _ _ _ ) with (2 := Hstage).
    apply (groupby_sum_well_formed _ _ _ _ ) with (2 := Hagg).
    destruct m; discriminate.
  - apply has_column_getitem.
    unfold crime_index_stage in Hstage.
    destruct (mapM _ (crime_cols m df)) as [vs|]; [|discriminate].
    simpl in Hstage.
    destruct (getitem "total_crime" _) as [t|]; [|discriminate].
    simpl in Hstage.
    destruct (MinMaxScaler_fit_transform _) as [index|]; [|discriminate].
    simpl in Hstage. injection Hstage as <-.
    eexists. apply getitem_setitem_same.
Qed.




(** * Further properties of the code *)

(** ** Schema normaliser *)













(** ** Hierarchical fill *)

Lemma ffill_from_missing_inv (s : Series) (last : cell) (j : nat) :
  j < length s -> nth j (ffill_from last s) NaN = NaN ->
  last = NaN /\ forall k, k <= j -> nth k s NaN = NaN.
Proof.
  revert last j. induction s as [|c t IH]; intros last j Hj Hmiss.
  - simpl in Hj. lia.
  - simpl in Hj. destruct j as [|j].
    + destruct c; simpl in Hmiss; try discriminate.
      split; [exact Hmiss|]. intros k Hk. now replace k with 0 by lia.
    + assert (Hstep : forall l, nth j (ffill_from l t) NaN = NaN ->
                l = NaN /\ forall k, k <= j -> nth k t NaN = NaN).
      { intros l. apply IH. lia. }
      destruct c; simpl in Hmiss; apply Hstep in Hmiss as [Hl Ht];
        try discriminate.
      split; [exact Hl|]. intros [|k] Hk; simpl; auto. apply Ht. lia.
Qed.

(** X2.  After the fill a cell is still missing exactly when no value stands
    at or above it in the column: missing cells are left only at the top. *)
Theorem ffill_missing_iff_no_value_above (s : Series) (j : nat) :
  j < length s ->
  (nth j (ffill s) NaN = NaN <-> forall k, k <= j -> nth k s NaN = NaN).
Proof.
  intros Hj. split.
  - intros Hmiss. now apply (ffill_from_missing_inv s NaN j).
  - intros Hall. now apply ffill_from_leading.
Qed.

Lemma ffill_missing_iff_no_value_above_witness :
  nth 1 (ffill [NaN; NaN; Str "A"; NaN]) NaN = NaN /\
  nth 3 (ffill [NaN; NaN; Str "A"; NaN]) NaN <> NaN.
Proof.
  split.
  - apply ffill_missing_iff_no_value_above; [simpl; lia|].
    intros [|[|k]] Hk; simpl; auto. lia.
  - intros H.
    assert (Hlen : 3 < length [NaN; NaN; Str "A"; NaN]) by (simpl; lia).
    pose proof (proj1 (ffill_missing_iff_no_value_above _ 3 Hlen) H 2) as K.
    discriminate K. lia.
Defined.

Lemma ffill_from_idempotent (s : Series) (last : cell) :
  ffill_from last (ffill_from last s) = ffill_from last s.
Proof.
  revert last. induction s as [|c t IH]; intros last; simpl; auto.
  destruct c; simpl.
  - destruct last; simpl; now rewrite IH.
  - now rewrite IH.
  - now rewrite IH.
Qed.

Lemma ffill_idempotent (s : Series) : ffill (ffill s) = ffill s.
Proof. apply ffill_from_idempotent. Qed.

Lemma setitem_same_value (c : string) (s : Series) (df : DataFrame) :
  getitem c df = Ok s -> setitem c s df = df.
Proof.
  induction df as [|[name old] rest IH]; simpl; [discriminate|].
  destruct (String.eqb name c).
  - intros H. injection H as ->. reflexivity.
  - intros H. now rewrite IH.
Qed.

Lemma fill_column_ok_has (c : string) (df df' : DataFrame) :
  fill_column c df = Ok df' -> has_column c df = true.
Proof.
  intros H. destruct (has_column c df) eqn:E; auto.
  rewrite (fill_column_absent _ _ E) in H. discriminate.
Qed.

Lemma hierarchical_fill_ok_has (m : Mode) (df df' : DataFrame) (c : string) :
  hierarchical_fill m df = Ok df' -> In c (fill_columns m) ->
  has_column c df = true.
Proof.
  intros H Hc. destruct m; simpl in H, Hc;
    destruct (fill_column "state_name" df) as [d1|] eqn:E1;
    try discriminate; simpl in H.
  - destruct (fill_column "district_name" d1) as [d2|] eqn:E2;
      [|discriminate].
    simpl in H. destruct Hc as [<-|[<-|[<-|[]]]].
    + exact (fill_column_ok_has _ _ _ E1).
    + rewrite <- (fill_column_has_column _ _ _ _ E1).
      exact (fill_column_ok_has _ _ _ E2).
    + rewrite <- (fill_column_has_column _ _ _ _ E1).
      rewrite <- (fill_column_has_column _ _ _ _ E2).
      exact (fill_column_ok_has _ _ _ H).
  - destruct Hc as [<-|[<-|[]]].
    + exact (fill_column_ok_has _ _ _ E1).
    + rewrite <- (fill_column_has_column _ _ _ _ E1).
      exact (fill_column_ok_has _ _ _ H).
Qed.

Lemma fill_column_fixed (c : string) (df : DataFrame) (s : Series) :
  getitem c df = Ok (ffill s) -> fill_column c df = Ok df.
Proof.
  intros H. unfold fill_column. rewrite H. simpl.
  rewrite ffill_idempotent.
  now rewrite (setitem_same_value _ _ _ H).
Qed.

(** X3.  The fill stage is idempotent: run on its own result it returns that
    result unchanged. *)
Theorem hierarchical_fill_idempotent (m : Mode) (df df' : DataFrame) :
  hierarchical_fill m df = Ok df' -> hierarchical_fill m df' = Ok df'.
Proof.
  intros H.
  destruct (hierarchical_fill_get m df) as [d [Hd Hget]].
  { intros c Hc. exact (hierarchical_fill_ok_has _ _ _ _ H Hc). }
  rewrite H in Hd. injection Hd as <-.
  assert (Hfix : forall c, In c (fill_columns m) ->
                   fill_column c df' = Ok df').
  { intros c Hc.
    destruct (proj1 (has_column_getitem c df)) as [s Hs].
    - exact (hierarchical_fill_ok_has _ _ _ _ H Hc).
    - exact (fill_column_fixed _ _ _ (Hget c s Hc Hs)). }
  destruct m; simpl in *.
  - rewrite (Hfix "state_name") by auto. simpl.
    rewrite (Hfix "district_name") by auto. simpl.
    apply Hfix. auto.
  - rewrite (Hfix "state_name") by auto. simpl.
    apply Hfix. auto.
Qed.

Lemma hierarchical_fill_idempotent_witness :
  exists df',
    hierarchical_fill TableView sparse_labels = Ok df' /\
    hierarchical_fill TableView df' = Ok df'.
Proof.
  destruct (hierarchical_fill TableView sparse_labels) as [df'|] eqn:E;
    [|vm_compute in E; discriminate E].
  exists df'. split; [reflexivity|].
  exact (hierarchical_fill_idempotent _ _ _ E).
Defined.

(** ** Numeric coercion *)

Lemma mem_crime_cols_excluded (m : Mode) (df : DataFrame) (c : string) :
  In c (exclude_cols m) -> mem c (crime_cols m df) = false.
Proof.
  intros Hex. destruct (mem c (crime_cols m df)) eqn:E; auto.
  apply mem_In, crime_cols_In in E as [_ Hn]. contradiction.
Qed.

(** X4.  Coercion never touches the identifier columns: [year], [state_name],
    [district_name], [registration_circles] and, in map mode, [lat] and
    [lon] read the same before and after, and the frame keeps its column
    names. *)
Theorem numeric_coercion_keeps_identifiers (parse : string -> option Q)
    (m : Mode) (df : DataFrame) (c : string) :
  In c (exclude_cols m) ->
  getitem c (numeric_coercion parse (crime_cols m df) df) = getitem c df /\
  columns (numeric_coercion parse (crime_cols m df) df) = columns df.
Proof.
  intros Hex. split.
  - rewrite getitem_numeric_coercion.
    now rewrite (mem_crime_cols_excluded m df c Hex).
  - apply columns_numeric_coercion.
Qed.

Lemma numeric_coercion_keeps_identifiers_witness :
  getitem "state_name"
    (numeric_coercion parse_integer_literal
       (crime_cols MapView upload_two_states) upload_two_states)
  = Ok [Str "A"; Str "B"; Str "A"].
Proof.
  destruct (numeric_coercion_keeps_identifiers parse_integer_literal MapView
              upload_two_states "state_name") as [H _].
  - simpl. auto.
  - rewrite H. reflexivity.
Defined.

Lemma coerce_series_idempotent (parse : string -> option Q) (s : Series) :
  coerce_series parse (coerce_series parse s) = coerce_series parse s.
Proof.
  unfold coerce_series. rewrite map_map. apply map_ext. intros c.
  destruct (coerce_cell_cases parse c) as [q [E _]]. now rewrite E.
Qed.

(** X5.  Coercion is idempotent: a coerced frame has the same crime-type
    columns, and coercing it again returns it unchanged. *)
Theorem numeric_coercion_idempotent (parse : string -> option Q) (m : Mode)
    (df : DataFrame) :
  let df' := numeric_coercion parse (crime_cols m df) df in
  crime_cols m df' = crime_cols m df /\
  numeric_coercion parse (crime_cols m df') df' = df'.
Proof.
  intros df'.
  assert (Hcols : crime_cols m df' = crime_cols m df).
  { apply crime_cols_columns. apply columns_numeric_coercion. }
  split; [exact Hcols|]. rewrite Hcols. unfold df', numeric_coercion.
  rewrite map_map. apply map_ext. intros [name s]. simpl.
  destruct (mem name (crime_cols m df)) eqn:E; simpl; rewrite E; auto.
  now rewrite coerce_series_idempotent.
Qed.

(** ** Filter stage *)

Lemma mask_select_length (mask : list bool) (col : Series) :
  length col = length mask ->
  length (mask_select mask col) = length (filter (fun b => b) mask).
Proof.
  revert col. induction mask as [|b mask IH]; intros [|c col] H;
    simpl in *; try discriminate; auto.
  destruct b; simpl; rewrite IH; auto.
Qed.

(** A kept row sits at the position that counts the kept rows above it. *)
Lemma mask_select_kept (mask : list bool) (i : nat) :
  i < length mask -> nth i mask false = true ->
  exists j, j < length (filter (fun b => b) mask) /\
    forall col : Series, length col = length mask ->
      nth j (mask_select mask col) NaN = nth i col NaN.
Proof.
  revert i. induction mask as [|b mask IH]; intros i Hi Hb.
  - simpl in Hi. lia.
  - destruct i as [|i]; simpl in Hb.
    + subst b. exists 0. split; [simpl; lia|].
      intros [|c col] H; [discriminate | reflexivity].
    + destruct (IH i) as [j [Hj Hcol]]; [simpl in Hi; lia | exact Hb|].
      destruct b.
      * exists (S j). split; [simpl; lia|].
        intros [|c col] H; [discriminate|]. simpl. apply Hcol.
        simpl in H. lia.
      * exists j. split; [exact Hj|].
        intros [|c col] H; [discriminate|]. simpl. apply Hcol.
        simpl in H. lia.
Qed.

Lemma mask_select_origin (mask : list bool) (j : nat) :
  j < length (filter (fun b => b) mask) ->
  exists i, i < length mask /\ nth i mask false = true /\
    forall col : Series, length col = length mask ->
      nth j (mask_select mask col) NaN = nth i col NaN.
Proof.
  revert j. induction mask as [|b mask IH]; intros j Hj.
  - simpl in Hj. lia.
  - destruct b; simpl in Hj.
    + destruct j as [|j].
      * exists 0. split; [simpl; lia|]. split; [reflexivity|].
        intros [|c col] H; [discriminate | reflexivity].
      * destruct (IH j) as [i [Hi [Hb Hcol]]]; [lia|].
        exists (S i). split; [simpl; lia|]. split; [exact Hb|].
        intros [|c col] H; [discriminate|]. simpl. apply Hcol.
        simpl in H. lia.
    + destruct (IH j Hj) as [i [Hi [Hb Hcol]]].
      exists (S i). split; [simpl; lia|]. split; [exact Hb|].
      intros [|c col] H; [discriminate|]. simpl. apply Hcol.
      simpl in H. lia.
Qed.

Lemma mask_and_length (a b : list bool) :
  length a = length b -> length (mask_and a b) = length a.
Proof.
  revert b. induction a as [|x a IH]; intros [|y b] H; simpl in *;
    try discriminate; auto.
Qed.

Lemma mask_and_nth (a b : list bool) (i : nat) :
  length a = length b ->
  nth i (mask_and a b) false = nth i a false && nth i b false.
Proof.
  revert b i. induction a as [|x a IH]; intros [|y b] i H; simpl in *;
    try discriminate.
  - now destruct i.
  - destruct i as [|i]; auto.
Qed.

Lemma map_nth_bool (f : cell -> bool) (s : Series) (i : nat) :
  i < length s -> nth i (map f s) false = f (nth i s NaN).
Proof.
  intros Hi. rewrite (nth_indep _ false (f NaN)) by now rewrite length_map.
  apply map_nth.
Qed.

Lemma well_formed_columns_length (df : DataFrame) (col : Series) :
  well_formed df -> In col (map snd df) -> length col = nrows df.
Proof.
  unfold well_formed. rewrite Forall_forall. intros Hwf Hin.
  apply in_map_iff in Hin as [cs [<- Hcs]]. now apply Hwf.
Qed.

Lemma row_filter_rows (mask : list bool) (df : DataFrame) (i j : nat) :
  (forall col : Series, In col (map snd df) ->
     nth j (mask_select mask col) NaN = nth i col NaN) ->
  row (filter_rows mask df) j = row df i.
Proof.
  intros H. unfold row, row_key, filter_rows. rewrite !map_map. simpl.
  apply map_ext_in. intros cs Hcs. apply H. now apply in_map.
Qed.

(** X6.  The filter keeps exactly the rows whose year and state both equal the
    selection: every row of the result is such a row of the frame, and
    every such row of the frame is a row of the result.  The result keeps
    the columns and is well formed. *)
Theorem filter_stage_keeps_matching_rows (df f : DataFrame)
    (y s : selection) (ys ss : Series) :
  well_formed df ->
  getitem "year" df = Ok ys -> getitem "state_name" df = Ok ss ->
  filter_stage df y s = Ok f ->
  let matches := fun i =>
    eq_selected y (nth i ys NaN) && eq_selected s (nth i ss NaN) in
  columns f = columns df /\ well_formed f /\
  (forall j, j < nrows f ->
     exists i, i < nrows df /\ matches i = true /\ row f j = row df i) /\
  (forall i, i < nrows df -> matches i = true ->
     exists j, j < nrows f /\ row f j = row df i).
Proof.
  intros Hwf Hys Hss Hrun matches.
  pose proof (well_formed_length _ _ _ Hwf Hys) as Hly.
  pose proof (well_formed_length _ _ _ Hwf Hss) as Hls.
  pose proof (filter_stage_columns _ _ _ _ Hrun) as Hcols.
  unfold filter_stage in Hrun. rewrite Hys, Hss in Hrun. simpl in Hrun.
  injection Hrun as <-.
  set (mask := mask_and (map (eq_selected y) ys) (map (eq_selected s) ss)).
  assert (Hlm : length mask = nrows df).
  { unfold mask. rewrite mask_and_length; rewrite !length_map; lia. }
  assert (Hmask : forall i, i < nrows df ->
                    nth i mask false = matches i).
  { intros i Hi. unfold mask, matches.
    rewrite mask_and_nth by (rewrite !length_map; lia).
    rewrite !map_nth_bool by lia. reflexivity. }
  assert (Hcol : forall col : Series, In col (map snd df) ->
                   length col = length mask).
  { intros col Hin. rewrite Hlm. now apply well_formed_columns_length. }
  assert (Hrows : nrows (filter_rows mask df)
                  = length (filter (fun b => b) mask)).
  { destruct df as [|[name col] rest]; [discriminate|].
    simpl. apply mask_select_length. apply Hcol. simpl. now left. }
  split; [exact Hcols|]. split; [|split].
  - unfold well_formed. rewrite Hrows. unfold filter_rows.
    apply Forall_forall. intros cs Hin.
    apply in_map_iff in Hin as [[name col] [<- Hin]]. simpl.
    apply mask_select_length. apply Hcol.
    apply in_map_iff. exists (name, col). auto.
  - rewrite Hrows. intros j Hj.
    destruct (mask_select_origin mask j Hj) as [i [Hi [Hb Hat]]].
    exists i. split; [lia|]. split.
    + rewrite <- Hmask by lia. exact Hb.
    + apply row_filter_rows. intros col Hin. apply Hat. now apply Hcol.
  - rewrite Hrows. intros i Hi Hm.
    destruct (mask_select_kept mask i) as [j [Hj Hat]].
    + lia.
    + now rewrite Hmask.
    + exists j. split; [exact Hj|].
      apply row_filter_rows. intros col Hin. apply Hat. now apply Hcol.
Qed.

Lemma filter_stage_keeps_matching_rows_witness :
  exists f,
    filter_stage upload_two_states (Some (Num 2020)) (Some (Str "B")) = Ok f /\
    nrows f = 1 /\
    row f 0 = [Num 2020; Str "B"; Str "Y"; Str "c"; Num 20; Num 80; Num 3].
Proof.
  destruct (filter_stage upload_two_states (Some (Num 2020)) (Some (Str "B")))
    as [f|] eqn:E; [|vm_compute in E; discriminate E].
  destruct (filter_stage_keeps_matching_rows upload_two_states f
              (Some (Num 2020)) (Some (Str "B"))
              [Num 2020; Num 2020; Num 2021] [Str "A"; Str "B"; Str "A"])
    as [_ [_ [_ Hkept]]]; try reflexivity.
  - repeat constructor.
  - exact E.
  - exists f. split; [reflexivity|].
    destruct (Hkept 1) as [j [Hj Hrow]]; [simpl; lia | reflexivity |].
    injection E as <-. simpl in Hj.
    assert (j = 0) by lia. subst j. split; [reflexivity | exact Hrow].
Defined.

(** ** When the pipeline returns *)

Lemma mask_select_none {A : Type} (mask : list bool) (col : list A) :
  Forall (fun b => b = false) mask -> mask_select mask col = [].
Proof.
  intros H. revert col. induction H as [|b mask Hb _ IH]; intros [|c col];
    simpl; auto.
  subst b. apply IH.
Qed.

Lemma mask_and_none_r (a b : list bool) :
  Forall (fun x => x = false) b -> Forall (fun x => x = false) (mask_and a b).
Proof.
  intros H. revert a. induction H as [|y b Hy _ IH]; intros [|x a]; simpl;
    auto.
  constructor; [subst y; apply andb_false_r | apply IH].
Qed.

Lemma eq_selected_missing (sel : selection) (s : Series) :
  sel = None \/ sel = Some NaN ->
  Forall (fun x => x = false) (map (eq_selected sel) s).
Proof.
  intros H. apply Forall_forall. intros b Hb.
  apply in_map_iff in Hb as [c [<- _]].
  destruct H as [-> | ->]; simpl; auto. now destruct c.
Qed.

Lemma nrows_filter_rows_none (mask : list bool) (df : DataFrame) :
  Forall (fun b => b = false) mask -> nrows (filter_rows mask df) = 0.
Proof.
  intros H. destruct df as [|[name col] rest]; simpl; auto.
  now rewrite mask_select_none.
Qed.

Lemma preprocess_state_name (m : Mode) (raw df : DataFrame) :
  preprocess m raw = Ok df -> has_column "state_name" df = true.
Proof.
  unfold preprocess. intros H.
  destruct (hierarchical_fill m (normalize_columns raw)) as [d|] eqn:Hfill;
    [|discriminate].
  simpl in H. destruct (check_required_columns m d); [|discriminate].
  simpl in H. injection H as <-.
  unfold has_column. rewrite (hierarchical_fill_columns _ _ _ Hfill).
  apply (hierarchical_fill_ok_has _ _ _ _ Hfill).
  destruct m; simpl; auto.
Qed.

(** X7.  A selected state that is the missing value, or no selected state at
    all, equals the state of no row: whatever the upload, the mode and the
    year, the run then ends with the [ValueError] of the scaler. *)
Theorem missing_state_selection_raises (parse : string -> option Q)
    (m : Mode) (raw df : DataFrame) (y s : selection) :
  preprocess m raw = Ok df -> has_column "year" df = true ->
  s = None \/ s = Some NaN ->
  district_pipeline parse m raw y s = Raise (ValueError no_samples_message).
Proof.
  intros Hpre Hyear Hsel.
  set (df' := numeric_coercion parse (crime_cols m df) df).
  assert (Hc : columns df' = columns df) by apply columns_numeric_coercion.
  destruct (proj1 (has_column_getitem "year" df')) as [ys Hys].
  { now rewrite (has_column_columns _ _ _ Hc). }
  destruct (proj1 (has_column_getitem "state_name" df')) as [ss Hss].
  { rewrite (has_column_columns _ _ _ Hc).
    exact (preprocess_state_name _ _ _ Hpre). }
  apply (empty_selection_always_raises parse m raw df
           (filter_rows (mask_and (map (eq_selected y) ys)
                                  (map (eq_selected s) ss)) df')).
  - exact Hpre.
  - fold df'. unfold filter_stage. now rewrite Hys, Hss.
  - apply nrows_filter_rows_none, mask_and_none_r.
    now apply eq_selected_missing.
Qed.

Lemma missing_state_selection_raises_witness :
  district_pipeline parse_integer_literal MapView upload_two_states
    (Some (Num 2020)) (Some NaN)
  = Raise (ValueError no_samples_message).
Proof.
  apply (missing_state_selection_raises parse_integer_literal MapView
           upload_two_states upload_two_states); auto.
Defined.


Lemma group_cols_nonempty (m : Mode) : group_cols m <> [].
Proof. destruct m; discriminate. Qed.



(** ** Crime index *)








(** ** Aggregator: what the groups add up to, and their order *)






Lemma key_eqb_compat (x k k' : key) :
  key_eq k k' -> key_eqb x k = key_eqb x k'.
Proof.
  intros E. destruct (key_eqb x k) eqn:E1, (key_eqb x k') eqn:E2; auto.
  - pose proof (key_eq_trans _ _ _ E1 E). unfold key_eq in *. congruence.
  - pose proof (key_eq_trans _ _ _ E2 (key_eq_sym _ _ E)).
    unfold key_eq in *. congruence.
Qed.



(** The frame the aggregator returns, spelled out: its key columns hold
    the group keys and its rows are as many. *)
Lemma groupby_sum_keys (by_ cols : list string) (F : DataFrame)
    (ks vs : list Series) :
  NoDup by_ -> by_ <> [] ->
  mapM (fun c => getitem c F) by_ = Ok ks ->
  mapM (fun c => getitem c F) cols = Ok vs ->
  let keys := group_keys ks (nrows F) in
  exists A ak,
    groupby_sum by_ cols F = Ok A /\
    mapM (fun c => getitem c A) by_ = Ok ak /\
    nrows A = length keys /\
    (forall j, j < length keys -> row_key ak j = nth j keys []) /\
    (forall c s, In c cols -> ~ In c by_ -> getitem c F = Ok s ->
       getitem c A
       = Ok (map (fun k => Num (group_sum ks (nrows F) k s)) keys)).
Proof.
  intros Hnd Hne Hks Hvs keys.
  unfold groupby_sum. rewrite Hks, Hvs. simpl. fold keys.
  set (keycols := map (fun j => map (fun k => nth j k NaN) keys)
                      (seq 0 (length by_))).
  set (g := fun s : Series =>
              map (fun k => Num (group_sum ks (nrows F) k s)) keys).
  destruct (group_keys_spec ks (nrows F)) as [_ [Hsound _]].
  fold keys in Hsound.
  assert (Hklen : forall k, In k keys -> length k = length by_).
  { intros k Hk. destruct (Hsound k Hk) as [_ [i [_ <-]]].
    rewrite row_key_length. exact (mapM_length _ _ _ Hks). }
  eexists. exists keycols. split; [reflexivity|].
  split; [|split; [|split]].
  - apply mapM_getitem_keys; auto.
    unfold keycols. now rewrite length_map, length_seq.
  - apply groupby_sum_nrows; auto.
    + unfold keycols. now rewrite length_map, length_seq.
    + intros s Hs. unfold keycols in Hs.
      apply in_map_iff in Hs as [j [<- _]]. apply length_map.
  - intros j Hj. now apply row_key_key_columns.
  - intros c s Hc Hnot Hs. rewrite getitem_app_skip.
    + exact (getitem_combine_map g F cols vs c s Hvs Hc Hs).
    + intros Hin. apply columns_combine_incl in Hin. contradiction.
Qed.

Lemma group_cols_NoDup (m : Mode) : NoDup (group_cols m).
Proof.
  destruct m; simpl; repeat constructor; simpl; intuition discriminate.
Qed.



Lemma cell_leb_total (a b : cell) :
  cell_leb a b = false -> cell_leb b a = true.
Proof.
  destruct a as [|x|u], b as [|y|v]; simpl; auto; try discriminate.
  - intros H. apply Qle_bool_iff, Qlt_le_weak, Qnot_le_lt.
    intros Hle. apply Qle_bool_iff in Hle. congruence.
  - intros H. destruct (String.leb_total u v) as [E|E]; congruence.
Qed.

Lemma key_leb_total (a b : key) : key_leb a b = false -> key_leb b a = true.
Proof.
  revert b. induction a as [|x a IH]; intros [|y b]; simpl; auto;
    try discriminate.
  destruct (cell_same x y) eqn:E.
  - rewrite (cell_same_sym _ _ E). apply IH.
  - destruct (cell_same y x) eqn:E'.
    + apply cell_same_sym in E'. congruence.
    + apply cell_leb_total.
Qed.

Lemma insert_key_sorted (k : key) (l : list key) :
  Sorted (fun a b => key_leb a b = true) l ->
  Sorted (fun a b => key_leb a b = true) (insert_key k l).
Proof.
  induction 1 as [|a l Hl IH Ha]; simpl.
  - repeat constructor.
  - destruct (key_leb k a) eqn:E.
    + constructor; [now constructor | now constructor].
    + constructor; [exact IH|].
      destruct l as [|b l]; simpl.
      * constructor. now apply key_leb_total.
      * inversion Ha; subst.
        destruct (key_leb k b); constructor; auto.
        now apply key_leb_total.
Qed.

Lemma sort_keys_sorted (l : list key) :
  Sorted (fun a b => key_leb a b = true) (sort_keys l).
Proof.
  induction l as [|k l IH]; simpl; [constructor|].
  now apply insert_key_sorted.
Qed.

Lemma Sorted_nth_next (R : key -> key -> Prop) (l : list key) (j : nat) :
  Sorted R l -> S j < length l -> R (nth j l []) (nth (S j) l []).
Proof.
  intros H. revert j. induction H as [|a l Hl IH Ha]; intros j Hj.
  - simpl in Hj. lia.
  - destruct j as [|j].
    + destruct l as [|b l]; [simpl in Hj; lia|].
      inversion Ha; subst. assumption.
    + simpl in Hj. change (R (nth j l []) (nth (S j) l [])).
      apply IH. lia.
Qed.

(** X12.  The rows of the aggregate come in the order of their keys, each key
    strictly before the next: in the table view the districts are listed
    in ascending order of their names. *)
Theorem aggregate_rows_in_key_order (m : Mode) (cols : list string)
    (F : DataFrame) :
  (forall c, In c (group_cols m) -> has_column c F = true) ->
  (forall c, In c cols -> has_column c F = true) ->
  exists A ak,
    groupby_sum (group_cols m) cols F = Ok A /\
    mapM (fun c => getitem c A) (group_cols m) = Ok ak /\
    forall j, S j < nrows A ->
      key_leb (row_key ak j) (row_key ak (S j)) = true /\
      key_eqb (row_key ak j) (row_key ak (S j)) = false.
Proof.
  intros Hby Hcols.
  destruct (mapM_getitem_present _ F Hby) as [ks Hks].
  destruct (mapM_getitem_present cols F Hcols) as [vs Hvs].
  destruct (groupby_sum_keys (group_cols m) cols F ks vs
              (group_cols_NoDup m) (group_cols_nonempty m) Hks Hvs)
    as [A [ak [HA [Hak [Hrows [Hkey _]]]]]].
  exists A, ak. split; [exact HA|]. split; [exact Hak|].
  rewrite Hrows. intros j Hj. rewrite !Hkey by lia. split.
  - apply (Sorted_nth_next (fun a b => key_leb a b = true)); [|exact Hj].
    unfold group_keys. apply sort_keys_sorted.
  - apply NoDupA_nth_distinct; [|lia].
    now destruct (group_keys_spec ks (nrows F)).
Qed.

Lemma aggregate_rows_in_key_order_witness :
  exists A,
    groupby_sum (group_cols TableView) ["theft"]
      [ ("district_name", [Str "Y"; Str "X"; Str "Y"]);
        ("theft", [Num 1; Num 2; Num 3]) ] = Ok A /\
    getitem "district_name" A = Ok [Str "X"; Str "Y"].
Proof.
  destruct (aggregate_rows_in_key_order TableView ["theft"]
              [ ("district_name", [Str "Y"; Str "X"; Str "Y"]);
                ("theft", [Num 1; Num 2; Num 3]) ])
    as [A [ak [HA _]]].
  - intros c [<-|[]]. reflexivity.
  - intros c [<-|[]]. reflexivity.
  - exists A. split; [exact HA|].
    cbv in HA. injection HA as <-. reflexivity.
Defined.

(** ** The district table the pipeline returns *)

Lemma columns_setitem_absent (c : string) (s : Series) (df : DataFrame) :
  has_column c df = false -> columns (setitem c s df) = columns df ++ [c].
Proof.
  unfold has_column, columns.
  induction df as [|[name old] rest IH]; simpl; auto.
  rewrite String.eqb_sym. destruct (String.eqb name c); simpl;
    [discriminate|].
  intros H. now rewrite IH.
Qed.

Lemma has_column_setitem (c c' : string) (s : Series) (df : DataFrame) :
  has_column c (setitem c' s df) = String.eqb c c' || has_column c df.
Proof.
  unfold has_column, columns.
  induction df as [|[name old] rest IH]; simpl.
  - now rewrite orb_false_r.
  - destruct (String.eqb name c') eqn:E; simpl.
    + apply String.eqb_eq in E. subst name.
      now destruct (String.eqb c c').
    + rewrite IH. destruct (String.eqb c name), (String.eqb c c'); auto.
Qed.

Lemma crime_index_stage_structure (cols : list string)
    (agg out : DataFrame) :
  crime_index_stage cols agg = Ok out ->
  exists total index,
    out = setitem "crime_index" index (setitem "total_crime" total agg) /\
    length total = nrows agg /\ length index = nrows agg /\
    0 < nrows agg.
Proof.
  intros Hrun.
  destruct (mapM (fun c => getitem c agg) cols) as [vs|e] eqn:Hvs;
    [|unfold crime_index_stage in Hrun; rewrite Hvs in Hrun; discriminate].
  rewrite (crime_index_stage_unfold _ _ _ Hvs) in Hrun.
  destruct (MinMaxScaler_fit_transform (row_totals vs (nrows agg)))
    as [index|] eqn:Hfit; [|discriminate].
  simpl in Hrun. injection Hrun as <-.
  assert (Hne : row_totals vs (nrows agg) <> []).
  { intros E. rewrite E in Hfit. discriminate. }
  destruct (fit_transform_runs _ Hne) as [idx [E L]].
  rewrite Hfit in E. injection E as ->.
  eexists. eexists. split; [reflexivity|].
  rewrite !length_map, L, row_totals_length.
  repeat split; auto.
  destruct (nrows agg); [|lia]. now contradiction Hne.
Qed.

(** X13.  A run that returns hands on a well-formed district table with at
    least one row.  Unless the upload itself has a column named
    [total_crime] or [crime_index], its columns are the key columns, then
    the crime-type columns in the order of the upload, then [total_crime],
    then [crime_index]. *)
Theorem district_table_shape (parse : string -> option Q) (m : Mode)
    (raw : DataFrame) (y s : selection) (out : DataFrame) :
  district_pipeline parse m raw y s = Ok out ->
  0 < nrows out /\ well_formed out /\
  (~ In "total_crime" (columns (normalize_columns raw)) ->
   ~ In "crime_index" (columns (normalize_columns raw)) ->
   columns out
   = group_cols m ++ crime_cols m (normalize_columns raw)
     ++ ["total_crime"; "crime_index"]).
Proof.
  intros Hrun.
  destruct (district_pipeline_well_formed _ _ _ _ _ _ Hrun) as [Hwf _].
  destruct (district_pipeline_stages _ _ _ _ _ _ Hrun)
    as [df [f [d [Hpre [_ [Hagg Hstage]]]]]].
  destruct (crime_index_stage_structure _ _ _ Hstage)
    as [total [index [-> [Ht [Hi Hpos]]]]].
  assert (Hn1 : nrows (setitem "total_crime" total d) = nrows d)
    by now apply nrows_setitem.
  split; [|split; [exact Hwf|]].
  - rewrite nrows_setitem; lia.
  - intros Hnt Hni.
    pose proof (preprocess_columns _ _ _ Hpre) as Hcols.
    pose proof (groupby_sum_columns _ _ _ _ Hagg) as Hd.
    rewrite (crime_cols_columns m df _ Hcols) in Hd.
    assert (Habs : forall c, ~ In c (columns (normalize_columns raw)) ->
              ~ In c (group_cols m) -> has_column c d = false).
    { intros c Hc Hg. destruct (has_column c d) eqn:E; auto.
      apply has_column_In in E. rewrite Hd in E.
      apply in_app_or in E as [E|E]; [contradiction|].
      apply crime_cols_In in E as [E _]. contradiction. }
    rewrite columns_setitem_absent.
    + rewrite columns_setitem_absent.
      * rewrite Hd, <- !app_assoc. reflexivity.
      * apply Habs; auto. destruct m; simpl; intuition discriminate.
    + rewrite has_column_setitem. simpl.
      apply Habs; auto. destruct m; simpl; intuition discriminate.
Qed.

Lemma district_table_shape_witness :
  exists out,
    district_pipeline parse_integer_literal MapView upload_two_states
      (Some (Num 2020)) (Some (Str "A")) = Ok out /\
    0 < nrows out /\
    columns out
    = ["district_name"; "lat"; "lon"; "theft"; "total_crime"; "crime_index"].
Proof.
  destruct (district_pipeline parse_integer_literal MapView upload_two_states
              (Some (Num 2020)) (Some (Str "A"))) as [out|] eqn:E;
    [|vm_compute in E; discriminate E].
  destruct (district_table_shape _ _ _ _ _ _ E) as [Hpos [_ Hcols]].
  exists out. split; [reflexivity|]. split; [exact Hpos|].
  rewrite Hcols; [reflexivity | |]; simpl; intuition discriminate.
Defined.

(** ** Ranker *)

Lemma descending_app (l1 l2 : list Q) :
  descending (l1 ++ l2) ->
  forall a b, In a l1 -> In b l2 -> (b <= a)%Q.
Proof.
  unfold descending. induction l1 as [|x l1 IH]; intros H a b Ha Hb.
  - inversion Ha.
  - simpl in H. inversion H as [|x' l Hl Hx]; subst.
    destruct Ha as [<-|Ha].
    + rewrite Forall_forall in Hx. apply Hx. apply in_or_app. now right.
    + now apply IH.
Qed.

(** X14.  The ranker keeps the rows with the largest crime index: the rows it
    returns and the rows it leaves out make up the aggregate, and no row
    left out has a larger index than a row returned. *)
Theorem ranker_keeps_the_largest (df out : DataFrame) (s : Series)
    (top_n : nat) :
  well_formed df -> getitem "crime_index" df = Ok s ->
  top_districts df top_n out ->
  exists kept left,
    Permutation (seq 0 (nrows df)) (kept ++ left) /\
    length kept = Nat.min top_n (nrows df) /\
    out = take kept df /\
    forall i j, In i kept -> In j left ->
      (cell_num (nth j s NaN) <= cell_num (nth i s NaN))%Q.
Proof.
  intros Hwf Hs [sorted [[s0 [indexer [Hs0 [[Hperm Hdesc] ->]]]] ->]].
  rewrite Hs in Hs0. injection Hs0 as <-.
  rewrite length_map in Hperm.
  pose proof (well_formed_length _ _ _ Hwf Hs) as Hlen.
  exists (firstn top_n indexer), (skipn top_n indexer).
  rewrite firstn_skipn. split; [now rewrite <- Hlen|].
  split; [|split].
  - rewrite length_firstn, <- (Permutation_length Hperm), length_seq.
    now rewrite Hlen.
  - apply head_take.
  - intros i j Hi Hj. rewrite !cell_num_nth.
    rewrite <- (firstn_skipn top_n indexer), map_app in Hdesc.
    apply (descending_app _ _ Hdesc).
    + exact (in_map (fun k => nth k (map cell_num s) 0%Q) _ _ Hi).
    + exact (in_map (fun k => nth k (map cell_num s) 0%Q) _ _ Hj).
Qed.

Lemma ranker_keeps_the_largest_witness :
  exists out kept left,
    top_districts numeric_districts 1 out /\
    Permutation [0; 1] (kept ++ left) /\ length kept = 1 /\
    out = take kept numeric_districts.
Proof.
  destruct (top_districts_stable numeric_districts 1) as [out|] eqn:E;
    [|vm_compute in E; discriminate E].
  pose proof (top_districts_stable_is_top _ _ _ E) as Htop.
  destruct (ranker_keeps_the_largest numeric_districts out
              [Num 0; Num 1] 1) as [kept [left [Hp [Hl [Ho _]]]]].
  - repeat constructor.
  - reflexivity.
  - exact Htop.
  - exists out, kept, left. auto.
Defined.






(** ** The views built on the district table *)

Lemma getitem_filter_other (c c' : string) (df : DataFrame) :
  c <> c' ->
  getitem c (filter (fun cs => negb (String.eqb (fst cs) c')) df)
  = getitem c df.
Proof.
  intros Hne. induction df as [|[name s] rest IH]; simpl; auto.
  destruct (String.eqb name c') eqn:E; simpl.
  - apply String.eqb_eq in E. subst name.
    destruct (String.eqb c' c) eqn:E'; auto.
    apply String.eqb_eq in E'. congruence.
  - now rewrite IH.
Qed.

Lemma getitem_filter_same (c : string) (df : DataFrame) :
  getitem c (filter (fun cs => negb (String.eqb (fst cs) c)) df)
  = Raise (KeyError c).
Proof.
  induction df as [|[name s] rest IH]; simpl; auto.
  destruct (String.eqb name c) eqn:E; simpl; auto. now rewrite E.
Qed.

Lemma select_columns_present (cols : list string) (df : DataFrame) :
  (forall c, In c cols -> has_column c df = true) ->
  exists d, select_columns cols df = Ok d /\ columns d = cols /\
    forall c, In c cols -> getitem c d = getitem c df.
Proof.
  intros H. destruct (mapM_getitem_present cols df H) as [ss Hss].
  unfold select_columns. rewrite Hss. simpl.
  eexists. split; [reflexivity|]. split.
  - apply map_fst_combine. symmetry. exact (mapM_length _ _ _ Hss).
  - intros c Hc. destruct (proj1 (has_column_getitem c df) (H c Hc))
      as [s Hs].
    rewrite Hs.
    rewrite <- (map_id ss).
    exact (getitem_combine_map (fun v => v) df cols ss c s Hss Hc Hs).
Qed.

(** The inside of a run that returns: the aggregate and the two columns
    the crime-index stage adds to it. *)
Lemma district_pipeline_inside (parse : string -> option Q) (m : Mode)
    (raw : DataFrame) (y s : selection) (out : DataFrame) :
  district_pipeline parse m raw y s = Ok out ->
  exists df f d total index,
    preprocess m raw = Ok df /\
    groupby_sum (group_cols m) (crime_cols m df) f = Ok d /\
    out = setitem "crime_index" (map Num index)
            (setitem "total_crime" (map Num total) d) /\
    MinMaxScaler_fit_transform total = Ok index /\
    length total = nrows d /\ length index = nrows d /\
    nrows out = nrows d /\ 0 < nrows d.
Proof.
  intros Hrun.
  destruct (district_pipeline_stages _ _ _ _ _ _ Hrun)
    as [df [f [d [Hpre [_ [Hagg Hstage]]]]]].
  destruct (mapM (fun c => getitem c d) (crime_cols m df)) as [vs|e] eqn:Hvs;
    [|unfold crime_index_stage in Hstage; rewrite Hvs in Hstage;
      discriminate].
  rewrite (crime_index_stage_unfold _ _ _ Hvs) in Hstage.
  destruct (MinMaxScaler_fit_transform (row_totals vs (nrows d)))
    as [index|] eqn:Hfit; [|discriminate].
  simpl in Hstage. injection Hstage as <-.
  assert (Hne : row_totals vs (nrows d) <> []).
  { intros E. rewrite E in Hfit. discriminate. }
  destruct (fit_transform_runs _ Hne) as [idx [E L]].
  rewrite Hfit in E. injection E as ->.
  rewrite row_totals_length in L.
  exists df, f, d, (row_totals vs (nrows d)), idx.
  repeat (split; [first [assumption | reflexivity]|]).
  split; [apply row_totals_length|]. split; [exact L|]. split.
  - rewrite !nrows_setitem; auto; rewrite length_map; auto.
    + apply row_totals_length.
    + rewrite nrows_setitem; auto.
      rewrite length_map. apply row_totals_length.
  - destruct (nrows d); [|lia]. now contradiction Hne.
Qed.

Lemma district_table_has_column (parse : string -> option Q) (m : Mode)
    (raw : DataFrame) (y s : selection) (out : DataFrame) (c : string) :
  district_pipeline parse m raw y s = Ok out ->
  In c (group_cols m ++ crime_cols m (normalize_columns raw)
        ++ ["total_crime"; "crime_index"]) ->
  has_column c out = true.
Proof.
  intros Hrun Hc.
  destruct (district_pipeline_inside _ _ _ _ _ _ Hrun)
    as [df [f [d [total [index [Hpre [Hagg [-> _]]]]]]]].
  pose proof (groupby_sum_columns _ _ _ _ Hagg) as Hd.
  rewrite (crime_cols_columns m df _ (preprocess_columns _ _ _ Hpre)) in Hd.
  rewrite !has_column_setitem.
  rewrite app_assoc in Hc. apply in_app_or in Hc as [Hc|Hc].
  - assert (H : has_column c d = true)
      by (apply has_column_In; now rewrite Hd).
    rewrite H. now rewrite !orb_true_r.
  - destruct Hc as [<-|[<-|[]]]; reflexivity.
Qed.



Lemma mapM_first_failure {A B : Type} (f : A -> result B) (l : list A)
    (e : exn) :
  (forall a, In a l -> f a = Raise e \/ exists b, f a = Ok b) ->
  (exists a, In a l /\ f a = Raise e) ->
  mapM f l = Raise e.
Proof.
  induction l as [|a l IH]; intros Hall [x [Hx Ex]]; [inversion Hx|].
  simpl. destruct (Hall a (or_introl eq_refl)) as [Ea|[b Ea]]; rewrite Ea;
    simpl; auto.
  rewrite IH; auto.
  - intros a' Ha'. apply Hall. now right.
  - destruct Hx as [<-|Hx]; [congruence|]. eauto.
Qed.

(** X17.  In the table view, district names that are all numbers stop the run at
    the heat map: the district column counts as a numeric column, it is
    asked for after it has become the index, and the selection raises
    [KeyError]. *)
Theorem heatmap_data_table_numeric_districts (df : DataFrame) (dn : Series) :
  getitem "district_name" df = Ok dn -> numeric_dtype dn = true ->
  heatmap_data_table df = Raise (KeyError "district_name").
Proof.
  intros Hdn Hnum. unfold heatmap_data_table, set_index.
  rewrite Hdn. simpl. unfold select_columns.
  rewrite (mapM_first_failure _ _ (KeyError "district_name")); auto.
  - intros c Hc. unfold crime_only_cols in Hc.
    apply filter_In in Hc as [Hc _].
    destruct (String.eqb c "district_name") eqn:E.
    + apply String.eqb_eq in E. subst c. left. apply getitem_filter_same.
    + apply String.eqb_neq in E. right.
      rewrite (getitem_filter_other _ _ _ E).
      apply has_column_getitem, has_column_In.
      apply in_map_iff in Hc as [cs [<- Hcs]].
      apply filter_In in Hcs as [Hcs _]. unfold columns. now apply in_map.
  - exists "district_name". split; [|apply getitem_filter_same].
    unfold crime_only_cols. apply filter_In. split; [|reflexivity].
    apply in_map_iff. exists ("district_name", dn). split; [reflexivity|].
    apply filter_In. split; [now apply getitem_In | exact Hnum].
Qed.

Lemma heatmap_data_table_numeric_districts_witness :
  heatmap_data_table numeric_districts = Raise (KeyError "district_name").
Proof.
  apply (heatmap_data_table_numeric_districts numeric_districts
           [Num 101; Num 102]); reflexivity.
Defined.

Lemma setitem_absent (c : string) (s : Series) (df : DataFrame) :
  has_column c df = false -> setitem c s df = df ++ [(c, s)].
Proof.
  unfold has_column, columns.
  induction df as [|[name old] rest IH]; simpl; auto.
  rewrite String.eqb_sym. destruct (String.eqb name c); simpl;
    [discriminate|].
  intros H. now rewrite IH.
Qed.

Lemma filter_all {A : Type} (p : A -> bool) (l : list A) :
  (forall a, In a l -> p a = true) -> filter p l = l.
Proof.
  induction l as [|a l IH]; intros H; simpl; auto.
  rewrite (H a) by now left. rewrite IH; auto.
  intros b Hb. apply H. now right.
Qed.

Lemma numeric_dtype_Num (l : list Q) : numeric_dtype (map Num l) = true.
Proof.
  unfold numeric_dtype. apply forallb_forall. intros c Hc.
  apply in_map_iff in Hc as [q [<- _]]. reflexivity.
Qed.

Lemma crime_only_cols_district_table (kc : Series) (C : DataFrame)
    (total idx : list Q) (cols : list string) :
  numeric_dtype kc = false ->
  (forall cs, In cs C -> numeric_dtype (snd cs) = true) ->
  map fst C = cols -> ~ In "crime_index" cols ->
  crime_only_cols ((("district_name", kc) :: C)
                   ++ [("total_crime", map Num total)]
                   ++ [("crime_index", map Num idx)])
  = cols ++ ["total_crime"].
Proof.
  intros Hkc HC Hfst Hci. unfold crime_only_cols.
  cbn [app filter snd]. rewrite Hkc.
  rewrite filter_app, (filter_all _ C HC), map_app, Hfst.
  cbn [filter snd]. rewrite !numeric_dtype_Num.
  rewrite filter_app. f_equal.
  apply filter_all. intros c Hc.
  apply negb_true_iff, String.eqb_neq. intros ->. contradiction.
Qed.

(** X18.  In the table view, when the district names are text and the upload
    has no column named [total_crime] or [crime_index], the numeric
    columns the heat map shows are the crime-type columns followed by
    [total_crime], as in map mode, and the matrix is never empty. *)
Theorem heatmap_data_table_text_districts (parse : string -> option Q)
    (raw : DataFrame) (y s : selection) (out : DataFrame) (dn : Series) :
  district_pipeline parse TableView raw y s = Ok out ->
  ~ In "total_crime" (columns (normalize_columns raw)) ->
  ~ In "crime_index" (columns (normalize_columns raw)) ->
  getitem "district_name" out = Ok dn -> numeric_dtype dn = false ->
  exists h,
    heatmap_data_table out = Ok h /\ empty h = false /\ index h = dn /\
    columns (data h)
    = crime_cols TableView (normalize_columns raw) ++ ["total_crime"].
Proof.
  intros Hrun Hnt Hni Hdn Htext.
  set (cols := crime_cols TableView (normalize_columns raw)).
  destruct (district_pipeline_well_formed _ _ _ _ _ _ Hrun) as [Hwf _].
  pose proof (well_formed_length _ _ _ Hwf Hdn) as Hlen.
  destruct (district_pipeline_inside _ _ _ _ _ _ Hrun)
    as [df [f [d [total [idx [Hpre [Hagg [Hout [_ [_ [_ [Hn Hpos]]]]]]]]]]]].
  assert (Hcc : crime_cols TableView df = cols).
  { apply crime_cols_columns. exact (preprocess_columns _ _ _ Hpre). }
  rewrite Hcc in Hagg.
  assert (Hcols_in : forall c, In c cols ->
            In c (columns (normalize_columns raw)) /\ c <> "district_name").
  { intros c Hc. apply crime_cols_In in Hc as [Hc Hex]. split; auto.
    intros ->. apply Hex. simpl. auto. }
  (* the aggregate, column by column *)
  unfold groupby_sum in Hagg.
  destruct (mapM (fun c => getitem c f) (group_cols TableView))
    as [ks|] eqn:Hks; [|discriminate].
  destruct (mapM (fun c => getitem c f) cols) as [vs|] eqn:Hvs;
    [|discriminate].
  simpl in Hagg. injection Hagg as Hd.
  set (keys := group_keys ks (nrows f)) in Hd.
  set (sums := map (fun v => map (fun k => Num (group_sum ks (nrows f) k v))
                                 keys) vs) in Hd.
  set (kc := map (fun k => nth 0 k NaN) keys) in Hd.
  assert (Hsums : forall cs, In cs (combine cols sums) ->
            numeric_dtype (snd cs) = true /\ In (fst cs) cols).
  { intros [c v] Hin. split; [|exact (in_combine_l _ _ _ _ Hin)].
    apply in_combine_r in Hin. unfold sums in Hin.
    apply in_map_iff in Hin as [v0 [<- _]]. simpl.
    rewrite <- (map_map (fun k => group_sum ks (nrows f) k v0) Num).
    apply numeric_dtype_Num. }
  assert (Hfst : map fst (combine cols sums) = cols).
  { apply map_fst_combine. unfold sums. rewrite length_map.
    symmetry. exact (mapM_length _ _ _ Hvs). }
  assert (Habs : forall c, ~ In c (columns (normalize_columns raw)) ->
            c <> "district_name" -> has_column c d = false).
  { intros c Hc Hne. destruct (has_column c d) eqn:E; auto.
    apply has_column_In in E. rewrite <- Hd in E. unfold columns in E.
    change (In c ("district_name" :: map fst (combine cols sums))) in E.
    rewrite Hfst in E. destruct E as [E|E]; [congruence|].
    now apply Hcols_in in E. }
  assert (Hshape : out = (("district_name", kc) :: combine cols sums)
                         ++ [("total_crime", map Num total)]
                         ++ [("crime_index", map Num idx)]).
  { rewrite Hout, setitem_absent.
    - rewrite setitem_absent by (apply Habs; auto; discriminate).
      rewrite <- Hd, <- app_assoc. reflexivity.
    - rewrite has_column_setitem. simpl. apply Habs; auto. discriminate. }
  assert (Hkc : kc = dn).
  { rewrite Hshape in Hdn. simpl in Hdn. now injection Hdn. }
  assert (Hshow : crime_only_cols out = cols ++ ["total_crime"]).
  { rewrite Hshape. apply crime_only_cols_district_table; auto.
    - now rewrite Hkc.
    - intros cs Hin. now apply Hsums.
    - intros Hc. now apply Hcols_in in Hc. }
  destruct (select_columns_present (cols ++ ["total_crime"])
              (filter (fun cs => negb (String.eqb (fst cs) "district_name"))
                      out)) as [dd [Hsel [Hcolumns _]]].
  { intros c Hc. apply has_column_getitem.
    assert (Hne : c <> "district_name").
    { apply in_app_or in Hc as [Hc|[<-|[]]]; [|discriminate].
      now apply Hcols_in in Hc. }
    rewrite (getitem_filter_other _ _ _ Hne).
    apply has_column_getitem.
    apply (district_table_has_column _ _ _ _ _ _ _ Hrun).
    fold cols. simpl. right.
    apply in_app_or in Hc as [Hc|[<-|[]]]; apply in_or_app; auto.
    right. simpl. auto. }
  unfold heatmap_data_table, set_index. rewrite Hdn. simpl.
  rewrite Hshow, Hsel. simpl.
  eexists. split; [reflexivity|]. simpl.
  split; [|split; [reflexivity | exact Hcolumns]].
  unfold empty. simpl. apply orb_false_iff. split; apply Nat.eqb_neq.
  - lia.
  - unfold columns in Hcolumns. intros E.
    apply length_zero_iff_nil in E. subst dd. simpl in Hcolumns.
    now destruct cols.
Qed.

Lemma heatmap_data_table_text_districts_witness :
  exists out h,
    district_pipeline parse_integer_literal TableView upload_text_counts
      (Some (Num 2020)) (Some (Str "A")) = Ok out /\
    heatmap_data_table out = Ok h /\ empty h = false /\
    columns (data h) = ["theft"; "total_crime"].
Proof.
  destruct (district_pipeline parse_integer_literal TableView
              upload_text_counts (Some (Num 2020)) (Some (Str "A")))
    as [out|] eqn:E; [|vm_compute in E; discriminate E].
  destruct (heatmap_data_table_text_districts _ _ _ _ _
              [Str "X"; Str "Y"; Str "Z"] E)
    as [h [Hh [He [_ Hc]]]].
  - simpl. intuition discriminate.
  - simpl. intuition discriminate.
  - vm_compute in E. injection E as <-. reflexivity.
  - reflexivity.
  - exists out, h. split; [reflexivity|]. auto.
Defined.





Lemma columns_take (indexer : list nat) (df : DataFrame) :
  columns (take indexer df) = columns df.
Proof. unfold take, columns. rewrite map_map. reflexivity. Qed.

Lemma nrows_first_column (c : string) (rest : list string) (s : Series)
    (t : DataFrame) :
  columns t = c :: rest -> getitem c t = Ok s -> nrows t = length s.
Proof.
  destruct t as [|[name v] t]; [discriminate|].
  unfold columns. simpl. intros H. injection H as -> _.
  rewrite String.eqb_refl. intros E. now injection E as ->.
Qed.

(** X20.  The table shown last never fails on a run that returns: whatever
    arrangement the ranker chose, it has the three columns
    [district_name], [total_crime] and [crime_index], in that order, and
    [min(top_n, rows)] rows. *)
Theorem ranked_table_shape (parse : string -> option Q) (m : Mode)
    (raw : DataFrame) (y s : selection) (out top : DataFrame) (top_n : nat) :
  district_pipeline parse m raw y s = Ok out ->
  top_districts out top_n top ->
  exists t,
    ranked_table top = Ok t /\
    columns t = ["district_name"; "total_crime"; "crime_index"] /\
    nrows t = Nat.min top_n (nrows out).
Proof.
  intros Hrun [sorted [[s0 [indexer [Hs0 [[Hperm _] ->]]]] ->]].
  destruct (district_pipeline_well_formed _ _ _ _ _ _ Hrun) as [Hwf _].
  rewrite length_map in Hperm.
  pose proof (well_formed_length _ _ _ Hwf Hs0) as Hlen.
  rewrite head_take. set (kept := firstn top_n indexer).
  assert (Hhas : forall c,
            In c ["district_name"; "total_crime"; "crime_index"] ->
            has_column c (take kept out) = true).
  { intros c Hc. unfold has_column. rewrite columns_take.
    apply (district_table_has_column _ _ _ _ _ _ _ Hrun).
    destruct Hc as [<-|[<-|[<-|[]]]].
    - apply in_or_app. left. destruct m; simpl; auto.
    - apply in_or_app. right. apply in_or_app. right. simpl. auto.
    - apply in_or_app. right. apply in_or_app. right. simpl. auto. }
  destruct (select_columns_present _ _ Hhas) as [t [Ht [Hcols Hget]]].
  exists t. split; [exact Ht|]. split; [exact Hcols|].
  destruct (proj1 (has_column_getitem "district_name" out)) as [dn Hdn].
  { apply (district_table_has_column _ _ _ _ _ _ _ Hrun).
    apply in_or_app. left. destruct m; simpl; auto. }
  assert (Hfirst : getitem "district_name" t
                   = Ok (map (fun i => nth i dn NaN) kept)).
  { rewrite Hget by (simpl; auto). unfold take.
    rewrite (getitem_map_series (fun v => map (fun i => nth i v NaN) kept)).
    now rewrite Hdn. }
  rewrite (nrows_first_column _ _ _ _ Hcols Hfirst).
  rewrite length_map. unfold kept.
  rewrite length_firstn, <- (Permutation_length Hperm), length_seq.
  now rewrite Hlen.
Qed.

Lemma ranked_table_shape_witness :
  exists out top t,
    district_pipeline parse_integer_literal TableView upload_text_counts
      (Some (Num 2020)) (Some (Str "A")) = Ok out /\
    top_districts out 5 top /\ ranked_table top = Ok t /\ nrows t = 3.
Proof.
  destruct (district_pipeline parse_integer_literal TableView
              upload_text_counts (Some (Num 2020)) (Some (Str "A")))
    as [out|] eqn:E; [|vm_compute in E; discriminate E].
  destruct (top_districts_stable out 5) as [top|] eqn:Etop.
  - pose proof (top_districts_stable_is_top _ _ _ Etop) as Htop.
    destruct (ranked_table_shape _ _ _ _ _ _ _ _ E Htop) as [t [Ht [_ Hn]]].
    exists out, top, t. repeat (split; [first [reflexivity|assumption]|]).
    rewrite Hn. vm_compute in E. injection E as <-. reflexivity.
  - vm_compute in E. injection E as <-. vm_compute in Etop. discriminate Etop.
Defined.

(** ** The sidebar *)








